(** * TeenPattiPool: the room state machine of [server.js]

    A shallow embedding of the Socket.IO handlers of [server.js] and
    the properties of the room state machine proved (or refuted) on it.

    Conventions of the embedding.
    - JavaScript numbers that hold balances, pools, rounds and bid
      amounts are integers ([Z]); indices into [players] are [nat].
      The sums and differences of the handlers are the exact ones,
      which those of the language are as long as the results are
      integers of magnitude at most 2^53 ([safeInteger]); the
      properties that need a result to be exact say so.
    - JavaScript strings are [string]s of bytes; [toLowerCase] and the
      white space test are the ASCII ones.
    - A request field that is absent ([undefined]) is [None].
    - The registry [rooms] (a JS [Map]) is a [gmap string room]; the
      per-connection fields [socket.playerId] and [socket.roomCode]
      live in a second map keyed by [socket.id].
    - What the handlers read from the environment (the clock, the two
      calls of [Math.random]) is an explicit [env] argument.
    - Every [emit] is recorded, with the snapshot of the room at the
      time of the call.
    - The handlers run to completion one after the other, as on the
      event loop. The timer that [disconnect] arms is a call of its
      own, [DisconnectTimeout], which may arrive at any later point. *)

From Stdlib Require Import ZArith Lia Ascii.
From stdpp Require Import base option list strings pretty gmap fin_maps.

Local Open Scope string_scope.
Local Open Scope Z_scope.

(** ** JavaScript helpers *)

Module Js.

(** Values that can arrive in a request field of unknown type. A
    number is either an integer, [Num n], or a number with a
    fractional part, [Frac negative whole zeros digits], written as the
    decimal numeral that identifies it: [Frac true 50 0 5] is -50.5 and
    [Frac false 0 2 25] is 0.0025 ([zeros] counts the zeros between the
    point and [digits], which does not end in 0). A value of another
    kind, an array or an object, is to [parseInt] the text that the
    language prints for it, a [Str]. *)
Inductive value :=
| Undefined
| Null
| Bool (b : bool)
| Num (n : Z)
| Frac (negative : bool) (whole : N) (zeros : nat) (digits : positive)
| Str (s : string).

Fixpoint zeroes (n : nat) : string :=
  match n with
  | O => ""
  | S n' => String "0" (zeroes n')
  end.

(** [ToString] of the language, on the values above. An integer is
    printed in full, which is what the language does for a safe
    integer, of magnitude at most 2^53 (beyond, it prints the shortest
    digits that identify the double, and an exponent from 10^21 on):
    what is proved of [parseInt] on an integer is stated for safe
    integers. A number with a fractional part is printed in positional
    notation, unless it is smaller than 10^-6 in magnitude, for which
    the language prints [d.ddde-n]. *)
Definition toString (v : value) : string :=
  match v with
  | Undefined => "undefined"
  | Null => "null"
  | Bool true => "true"
  | Bool false => "false"
  | Num n => pretty n
  | Frac negative whole zeros digits =>
      let sign := if negative then "-" else "" in
      if bool_decide (whole = 0%N) && bool_decide (6 ≤ zeros)%nat
      then
        match pretty digits with
        | String d "" => sign +:+ String d "" +:+ "e-" +:+ pretty (S zeros)
        | String d more =>
            sign +:+ String d ("." +:+ more) +:+ "e-" +:+ pretty (S zeros)
        | "" => sign
        end
      else sign +:+ pretty whole +:+ "." +:+ zeroes zeros +:+ pretty digits
  | Str s => s
  end.


(** A string-or-undefined field [s] that passes the test [!s] is
    absent or empty; [truthy] keeps the others. *)
Definition truthy (s : option string) : option string :=
  match s with
  | Some s => if bool_decide (s = "") then None else Some s
  | None => None
  end.

Fixpoint trimStart (s : string) : string :=
  match s with
  | String c s' => if Ascii.is_space c then trimStart s' else s
  | EmptyString => EmptyString
  end.

(** [!s.trim()]: nothing but white space. *)
Definition blank (s : string) : bool := bool_decide (trimStart s = "").

Definition lowerChar (c : ascii) : ascii :=
  let n := nat_of_ascii c in
  if bool_decide (65 ≤ n ≤ 90)%nat then ascii_of_nat (n + 32) else c.

Fixpoint toLowerCase (s : string) : string :=
  match s with
  | String c s' => String (lowerChar c) (toLowerCase s')
  | EmptyString => EmptyString
  end.

(** The value of a digit in the given radix, if it is one. *)
Definition digit (radix : Z) (c : ascii) : option Z :=
  let n := Z.of_nat (nat_of_ascii c) in
  let d := if bool_decide (48 ≤ n ≤ 57) then Some (n - 48)
           else if bool_decide (97 ≤ n ≤ 122) then Some (n - 87)
           else if bool_decide (65 ≤ n ≤ 90) then Some (n - 55)
           else None in
  match d with
  | Some d => if bool_decide (d < radix) then Some d else None
  | None => None
  end.

(** Longest prefix of digits, accumulated from the left;
    [None] when there is no digit at all. *)
Fixpoint digits (radix : Z) (acc : option Z) (s : string) : option Z :=
  match s with
  | String c s' =>
      match digit radix c with
      | Some d => digits radix (Some (radix * default 0 acc + d)) s'
      | None => acc
      end
  | EmptyString => acc
  end.

Definition stripSign (s : string) : Z * string :=
  match s with
  | String "-" s' => (-1, s')
  | String "+" s' => (1, s')
  | _ => (1, s)
  end.

Definition stripPrefix (s : string) : Z * string :=
  match s with
  | String "0" (String "x" s') => (16, s')
  | String "0" (String "X" s') => (16, s')
  | _ => (10, s)
  end.

(** [parseInt(s)] without a radix; [None] is [NaN]. The result is the
    exact value of the digits, which the language rounds to a double:
    the two are equal up to 2^53 in magnitude. *)
Definition parseIntString (s : string) : option Z :=
  let '(sign, s1) := stripSign (trimStart s) in
  let '(radix, s2) := stripPrefix s1 in
  match digits radix None s2 with
  | Some n => Some (sign * n)
  | None => None
  end.

Definition parseInt (v : value) : option Z := parseIntString (toString v).

(** [x || d] for a number [x]: [NaN] and [0] are falsy. *)
Definition orDefault (x : option Z) (d : Z) : Z :=
  match x with
  | Some n => if bool_decide (n = 0) then d else n
  | None => d
  end.


End Js.

(** ** Data model *)

Record player := Player {
  id : string;
  socketId : string;
  name : string;
  balance : Z;
  isCreator : bool;
  packed : bool
}.

Record room := Room {
  code : string;
  creator : string;
  startingBalance : Z;
  players : list player;
  pool : Z;
  currentTurn : nat;
  round : Z;
  gameLog : list string;
  totalBids : Z
}.

Global Instance player_eq_dec : EqDecision player.
Proof. solve_decision. Defined.

Global Instance room_eq_dec : EqDecision room.
Proof. solve_decision. Defined.

(** Field updates. *)

Definition with_socketId (s : string) (p : player) : player :=
  Player (id p) s (name p) (balance p) (isCreator p) (packed p).
Definition with_balance (b : Z) (p : player) : player :=
  Player (id p) (socketId p) (name p) b (isCreator p) (packed p).
Definition with_isCreator (b : bool) (p : player) : player :=
  Player (id p) (socketId p) (name p) (balance p) b (packed p).
Definition with_packed (b : bool) (p : player) : player :=
  Player (id p) (socketId p) (name p) (balance p) (isCreator p) b.

Definition with_creator (c : string) (r : room) : room :=
  Room (code r) c (startingBalance r) (players r) (pool r) (currentTurn r)
       (round r) (gameLog r) (totalBids r).
Definition with_players (ps : list player) (r : room) : room :=
  Room (code r) (creator r) (startingBalance r) ps (pool r) (currentTurn r)
       (round r) (gameLog r) (totalBids r).
Definition with_pool (x : Z) (r : room) : room :=
  Room (code r) (creator r) (startingBalance r) (players r) x (currentTurn r)
       (round r) (gameLog r) (totalBids r).
Definition with_currentTurn (i : nat) (r : room) : room :=
  Room (code r) (creator r) (startingBalance r) (players r) (pool r) i
       (round r) (gameLog r) (totalBids r).
Definition with_round (x : Z) (r : room) : room :=
  Room (code r) (creator r) (startingBalance r) (players r) (pool r)
       (currentTurn r) x (gameLog r) (totalBids r).
Definition with_gameLog (l : list string) (r : room) : room :=
  Room (code r) (creator r) (startingBalance r) (players r) (pool r)
       (currentTurn r) (round r) l (totalBids r).
Definition with_totalBids (x : Z) (r : room) : room :=
  Room (code r) (creator r) (startingBalance r) (players r) (pool r)
       (currentTurn r) (round r) (gameLog r) x.

(** ** The environment of a handler call *)

Record env := Env {
  clock_ms : Z;        (* Date.now() *)
  clock_text : string; (* new Date().toLocaleTimeString() *)
  random_code : Z;     (* Math.floor(1000 + Math.random() * 9000) - 1000 *)
  random_id : string   (* Math.random().toString(36).substr(2, 9) *)
}.

(** ** Utility functions *)

Definition generateRoomCode (e : env) : string :=
  pretty (1000 + random_code e).

Definition generatePlayerId (e : env) : string :=
  "player_" +:+ pretty (clock_ms e) +:+ "_" +:+ random_id e.

Definition addToGameLog (e : env) (message : string) (r : room) : room :=
  let l := (gameLog r ++ ["[" +:+ clock_text e +:+ "] " +:+ message])%list in
  with_gameLog (if bool_decide (50 < length l)%nat
                then drop (length l - 50) l else l) r.

(** [room.players[i].packed]; an index outside the list does not occur
    at the places where this is used (the index was reduced modulo the
    length just before). *)
Definition packedAt (ps : list player) (i : nat) : bool :=
  match ps !! i with
  | Some p => packed p
  | None => false
  end.

(** The [while] loop shared by [moveToNextActivePlayer] and
    [ensureActiveTurn]: the state is [(currentTurn, attempts)]; [fuel]
    bounds the number of iterations. *)
Fixpoint skipPacked (fuel : nat) (ps : list player) (total : nat)
    (turn attempts : nat) : nat * nat :=
  match fuel with
  | O => (turn, attempts)
  | S fuel' =>
      if packedAt ps turn && bool_decide (attempts < total)%nat
      then skipPacked fuel' ps total ((turn + 1) mod total) (S attempts)
      else (turn, attempts)
  end.

(** The [for] loop that follows it: the first index that is not packed. *)
Definition firstActive (ps : list player) : option nat :=
  fst <$> list_find (λ p, packed p = false) ps.

Definition afterSkip (ps : list player) (total : nat) (st : nat * nat) : nat :=
  let '(turn, attempts) := st in
  if bool_decide (total ≤ attempts)%nat
  then default turn (firstActive ps)
  else turn.

Definition moveToNextActivePlayer (r : room) : room :=
  match players r with
  | [] => r
  | _ =>
      let total := length (players r) in
      let turn := ((currentTurn r + 1) mod total)%nat in
      with_currentTurn
        (afterSkip (players r) total
           (skipPacked total (players r) total turn 0)) r
  end.

Definition ensureActiveTurn (r : room) : room :=
  match players r with
  | [] => r
  | _ =>
      if packedAt (players r) (currentTurn r)
      then
        let total := length (players r) in
        with_currentTurn
          (afterSkip (players r) total
             (skipPacked total (players r) total (currentTurn r) 0)) r
      else r
  end.

(** ** Connections, registry and emitted events *)

(** The fields the handlers keep on a socket object. *)
Record socket := Socket {
  playerId : option string;
  roomCode : option string
}.

Record world := World {
  rooms : gmap string room;
  sockets : gmap string socket
}.

Definition session (w : world) (sid : string) : socket :=
  default (Socket None None) (sockets w !! sid).

Definition with_rooms (m : gmap string room) (w : world) : world :=
  World m (sockets w).
Definition with_session (sid : string) (s : socket) (w : world) : world :=
  World (rooms w) (<[sid := s]> (sockets w)).

(** [socket.emit], [io.to(x).emit] and [socket.to(x).emit]. *)
Inductive dest :=
| ToSocket (sid : string)
| ToRoom (roomCode : string)
| ToOthers (sid roomCode : string).

Inductive message :=
| error (text : string)
| roomCreated (roomCode : string) (p : player) (r : room)
| roomRejoined (success : bool) (text : option string) (r : option room)
| roomJoined (p : player) (r : room)
| roomUpdate (r : room)
| bidPlaced (who : string) (amount : Z) (r : room)
| winnerDeclared (winnerId : option string) (who : string) (amount : Z)
    (declaredBy : string) (r : room)
| playerPacked (who : string) (r : room)
| poolReset (finalAmount : Z) (r : room) (text : string)
| playerRemoved (text hostName : string)
| playerLeft (who : string) (removedBy : option string) (r : room)
| turnChanged (newTurnPlayer changedBy : string) (r : room).

Definition emission : Type := dest * message.

(** What a handler call does: it returns, having changed the world and
    emitted events, or it throws. *)
Inductive outcome :=
| Done (w : world) (out : list emission)
| Uncaught.

Definition fail (w : world) (sid text : string) : outcome :=
  Done w [(ToSocket sid, error text)].

(** [!roomCode || !playerId] on the socket's own fields. *)
Definition bound (s : socket) : option (string * string) :=
  match Js.truthy (roomCode s), Js.truthy (playerId s) with
  | Some c, Some p => Some (c, p)
  | _, _ => None
  end.

(** [room.players.find(p => p.id === x)] with its index; [x] may be an
    absent field, which matches no player. *)
Definition findPlayer (x : option string) (ps : list player)
  : option (nat * player) :=
  list_find (λ p, Some (id p) = x) ps.

(** ** The handlers *)

Definition createRoom (w : world) (sid : string) (e : env)
    (creatorName : option string) (startingBalance : Js.value) : outcome :=
  match Js.truthy creatorName with
  | None => fail w sid "Please enter your name"
  | Some cname =>
      if Js.blank cname
      then fail w sid "Please enter your name"
      else
        let rc := generateRoomCode e in
        let pid := generatePlayerId e in
        let p0 :=
          {| id := pid;
             socketId := sid;
             name := cname;
             balance := Js.orDefault (Js.parseInt startingBalance) 1000;
             isCreator := true;
             packed := false |} in
        let r :=
          {| code := rc;
             creator := cname;
             startingBalance := Js.orDefault (Js.parseInt startingBalance) 1000;
             players := [p0];
             pool := 0;
             currentTurn := 0;
             round := 1;
             gameLog := [];
             totalBids := 0 |} in
        let r := addToGameLog e (cname +:+ " created the room") r in
        let w := with_rooms (<[rc := r]> (rooms w)) w in
        let w := with_session sid (Socket (Some pid) (Some rc)) w in
        Done w [(ToSocket sid, roomCreated rc p0 r)]
  end.

Definition rejoinFailed (w : world) (sid text : string) : outcome :=
  Done w [(ToSocket sid, roomRejoined false (Some text) None)].

Definition rejoinRoom (w : world) (sid : string) (e : env)
    (rcode pid pname : option string) : outcome :=
  match Js.truthy rcode, Js.truthy pid, Js.truthy pname with
  | Some rc, Some pid, Some playerName =>
      match rooms w !! rc with
      | None => rejoinFailed w sid "Room not found"
      | Some r =>
          match findPlayer (Some pid) (players r) with
          | Some (i, _) =>
              let r := with_players (alter (with_socketId sid) i (players r)) r in
              let w := with_session sid (Socket (Some pid) (Some rc)) w in
              let r := addToGameLog e (playerName +:+ " reconnected") r in
              let w := with_rooms (<[rc := r]> (rooms w)) w in
              Done w [(ToSocket sid, roomRejoined true None (Some r));
                      (ToOthers sid rc, roomUpdate r)]
          | None => rejoinFailed w sid "Player not found in room"
          end
      end
  | _, _, _ => rejoinFailed w sid "Invalid rejoin data"
  end.

Definition joinRoom (w : world) (sid : string) (e : env)
    (pname rcode : option string) : outcome :=
  match Js.truthy pname with
  | None => fail w sid "Please enter your name"
  | Some playerName =>
      if Js.blank playerName
      then fail w sid "Please enter your name"
      else
        match Js.truthy rcode with
        | None => fail w sid "Please enter a valid 4-digit room code"
        | Some rc =>
            if bool_decide (String.length rc ≠ 4%nat)
            then fail w sid "Please enter a valid 4-digit room code"
            else
              match rooms w !! rc with
              | None =>
                  fail w sid "Room not found. Please check the room code."
              | Some r =>
                  if existsb
                       (λ p, bool_decide (Js.toLowerCase (name p)
                                          = Js.toLowerCase playerName))
                       (players r)
                  then fail w sid
                         "A player with this name already exists in the room"
                  else
                    let pid := generatePlayerId e in
                    let newPlayer :=
                      {| id := pid;
                         socketId := sid;
                         name := playerName;
                         balance := startingBalance r;
                         isCreator := false;
                         packed := false |} in
                    let r := with_players (players r ++ [newPlayer])%list r in
                    let w := with_session sid (Socket (Some pid) (Some rc)) w in
                    let r := addToGameLog e (playerName +:+ " joined the game") r in
                    let joined := (ToSocket sid, roomJoined newPlayer r) in
                    let r := ensureActiveTurn r in
                    let w := with_rooms (<[rc := r]> (rooms w)) w in
                    Done w [joined; (ToRoom rc, roomUpdate r)]
              end
        end
  end.

Definition placeBid (w : world) (sid : string) (e : env)
    (amount : option Z) : outcome :=
  match bound (session w sid) with
  | None => fail w sid "You are not in a room"
  | Some (rc, pid) =>
      match rooms w !! rc with
      | None => fail w sid "Room not found"
      | Some r =>
          match findPlayer (Some pid) (players r) with
          | None => fail w sid "Player not found"
          | Some (i, player) =>
              match players r !! currentTurn r with
              | None => Uncaught
              | Some current =>
                  if bool_decide (id current ≠ pid)
                  then fail w sid "It's not your turn!"
                  else
                    match amount with
                    | None => fail w sid "Please enter a valid bid amount"
                    | Some amount =>
                        if bool_decide (amount = 0) || bool_decide (amount ≤ 0)
                        then fail w sid "Please enter a valid bid amount"
                        else if bool_decide (balance player < amount)
                        then fail w sid "Insufficient balance!"
                        else
                          let r :=
                            with_players
                              (alter (λ p, with_balance (balance p - amount) p)
                                     i (players r)) r in
                          let r := with_pool (pool r + amount) r in
                          let r := with_totalBids (totalBids r + 1) r in
                          let r :=
                            addToGameLog e
                              (name player +:+ " bid ₹" +:+ pretty amount) r in
                          let r := moveToNextActivePlayer r in
                          let w := with_rooms (<[rc := r]> (rooms w)) w in
                          Done w [(ToRoom rc, bidPlaced (name player) amount r);
                                  (ToRoom rc, roomUpdate r)]
                    end
              end
          end
      end
  end.

Definition packCards (w : world) (sid : string) (e : env) : outcome :=
  match bound (session w sid) with
  | None => fail w sid "You are not in a room"
  | Some (rc, pid) =>
      match rooms w !! rc with
      | None => fail w sid "Room not found"
      | Some r =>
          match findPlayer (Some pid) (players r) with
          | None => fail w sid "Player not found"
          | Some (playerIndex, player) =>
              if packed player
              then fail w sid "You have already packed"
              else if bool_decide (currentTurn r ≠ playerIndex)
              then fail w sid "You can only pack during your turn"
              else
                let r :=
                  with_players
                    (alter (with_packed true) playerIndex (players r)) r in
                let r :=
                  addToGameLog e (name player +:+ " packed (folded)") r in
                let r := moveToNextActivePlayer r in
                let activePlayers :=
                  filter (λ p, packed p = false) (players r) in
                let '(r, won) :=
                  match activePlayers,
                        list_find (λ p, packed p = false) (players r) with
                  | [_], Some (j, winner) =>
                      let winAmount := pool r in
                      let r :=
                        with_players
                          (alter (λ p, with_balance (balance p + winAmount) p)
                                 j (players r)) r in
                      let r :=
                        addToGameLog e
                          ("🏆 " +:+ name winner +:+ " won ₹" +:+ pretty winAmount
                           +:+ "! (All others packed)") r in
                      let r := with_pool 0 r in
                      let r := with_round (round r + 1) r in
                      let r := with_totalBids 0 r in
                      let winnerIndex :=
                        fst <$> findPlayer (Some (id winner)) (players r) in
                      let r := with_currentTurn (default 0%nat winnerIndex) r in
                      let r :=
                        with_players (with_packed false <$> players r) r in
                      (r, [(ToRoom rc,
                            winnerDeclared None (name winner) winAmount
                              "System (Auto)" r)])
                  | _, _ => (r, [])
                  end in
                let packedEvent := (ToRoom rc, playerPacked (name player) r) in
                let r := ensureActiveTurn r in
                let w := with_rooms (<[rc := r]> (rooms w)) w in
                Done w (won ++ [packedEvent; (ToRoom rc, roomUpdate r)])%list
          end
      end
  end.

Definition resetPool (w : world) (sid : string) (e : env) : outcome :=
  match bound (session w sid) with
  | None => fail w sid "You are not in a room"
  | Some (rc, pid) =>
      match rooms w !! rc with
      | None => fail w sid "Room not found"
      | Some r =>
          match findPlayer (Some pid) (players r) with
          | Some (_, player) =>
              if negb (isCreator player)
              then fail w sid "Only the room creator can reset the pool"
              else
                let finalPoolAmount := pool r in
                let r := with_pool 0 r in
                let r := with_round 1 r in
                let r := with_totalBids 0 r in
                let r := with_currentTurn 0 r in
                let r :=
                  with_players
                    ((λ p, with_packed false
                             (with_balance (startingBalance r) p))
                       <$> players r) r in
                let r :=
                  addToGameLog e
                    ("Pool reset by " +:+ name player
                     +:+ ". Game restarted - Round " +:+ pretty (round r)
                     +:+ ". All balances restored to ₹"
                     +:+ pretty (startingBalance r) +:+ ".") r in
                let w := with_rooms (<[rc := r]> (rooms w)) w in
                Done w [(ToRoom rc,
                         poolReset finalPoolAmount r
                           ("All player balances have been reset to ₹"
                            +:+ pretty (startingBalance r)));
                        (ToRoom rc, roomUpdate r)]
          | None => fail w sid "Only the room creator can reset the pool"
          end
      end
  end.

Definition declareWinner (w : world) (sid : string) (e : env)
    (winnerId : option string) : outcome :=
  match bound (session w sid) with
  | None => fail w sid "You are not in a room"
  | Some (rc, pid) =>
      match rooms w !! rc with
      | None => fail w sid "Room not found"
      | Some r =>
          match findPlayer (Some pid) (players r) with
          | Some (_, hostPlayer) =>
              if negb (isCreator hostPlayer)
              then fail w sid "Only the host can declare a winner"
              else
                match findPlayer winnerId (players r) with
                | None => fail w sid "Winner not found"
                | Some (j, winner) =>
                    if bool_decide (pool r ≤ 0)
                    then fail w sid "Pool is empty. No winnings to distribute."
                    else
                      let winAmount := pool r in
                      let r :=
                        with_players
                          (alter (λ p, with_balance (balance p + winAmount) p)
                                 j (players r)) r in
                      let r :=
                        addToGameLog e
                          ("🏆 " +:+ name winner +:+ " won ₹" +:+ pretty winAmount
                           +:+ "! Declared by " +:+ name hostPlayer) r in
                      let r := with_pool 0 r in
                      let r := with_round (round r + 1) r in
                      let r := with_totalBids 0 r in
                      let winnerIndex :=
                        fst <$> findPlayer (Some (id winner)) (players r) in
                      let r := with_currentTurn (default 0%nat winnerIndex) r in
                      let r :=
                        with_players (with_packed false <$> players r) r in
                      let w := with_rooms (<[rc := r]> (rooms w)) w in
                      Done w [(ToRoom rc,
                               winnerDeclared (Some (id winner)) (name winner)
                                 winAmount (name hostPlayer) r);
                              (ToRoom rc, roomUpdate r)]
                end
          | None => fail w sid "Only the host can declare a winner"
          end
      end
  end.

Definition removePlayer (w : world) (sid : string) (e : env)
    (playerIdToRemove : option string) : outcome :=
  match bound (session w sid) with
  | None => fail w sid "You are not in a room"
  | Some (rc, pid) =>
      match rooms w !! rc with
      | None => fail w sid "Room not found"
      | Some r =>
          match findPlayer (Some pid) (players r) with
          | Some (_, hostPlayer) =>
              if negb (isCreator hostPlayer)
              then fail w sid "Only the host can remove players"
              else
                match findPlayer playerIdToRemove (players r) with
                | None => fail w sid "Player not found"
                | Some (playerIndex, playerToRemove) =>
                    if isCreator playerToRemove
                    then fail w sid
                      "Host cannot remove themselves. Use Leave Room instead."
                    else
                      let removedPlayerName := name playerToRemove in
                      let removedPlayerSocketId := socketId playerToRemove in
                      let r := with_players (delete playerIndex (players r)) r in
                      let r :=
                        addToGameLog e
                          (removedPlayerName +:+ " was removed by "
                           +:+ name hostPlayer) r in
                      let r :=
                        if bool_decide (length (players r) ≤ currentTurn r)%nat
                        then with_currentTurn 0 r
                        else if bool_decide (playerIndex < currentTurn r)%nat
                        then with_currentTurn (currentTurn r - 1) r
                        else r in
                      let notice :=
                        if bool_decide (removedPlayerSocketId = "") then []
                        else [(ToSocket removedPlayerSocketId,
                               playerRemoved
                                 ("You have been removed from the room by "
                                  +:+ name hostPlayer)
                                 (name hostPlayer))] in
                      let w := with_rooms (<[rc := r]> (rooms w)) w in
                      Done w (notice ++
                              [(ToRoom rc,
                                playerLeft removedPlayerName
                                  (Some (name hostPlayer)) r);
                               (ToRoom rc, roomUpdate r)])%list
                end
          | None => fail w sid "Only the host can remove players"
          end
      end
  end.

Definition changeTurn (w : world) (sid : string) (e : env)
    (newTurnPlayerId : option string) : outcome :=
  match bound (session w sid) with
  | None => fail w sid "You are not in a room"
  | Some (rc, pid) =>
      match rooms w !! rc with
      | None => fail w sid "Room not found"
      | Some r =>
          match findPlayer (Some pid) (players r) with
          | Some (_, hostPlayer) =>
              if negb (isCreator hostPlayer)
              then fail w sid "Only the host can change turn"
              else
                match findPlayer newTurnPlayerId (players r) with
                | None => fail w sid "Player not found"
                | Some (newTurnPlayerIndex, newTurnPlayer) =>
                    if packed newTurnPlayer
                    then fail w sid "Cannot set turn to a packed player"
                    else
                      let r := with_currentTurn newTurnPlayerIndex r in
                      let r :=
                        addToGameLog e
                          ("Turn changed to " +:+ name newTurnPlayer +:+ " by "
                           +:+ name hostPlayer) r in
                      let w := with_rooms (<[rc := r]> (rooms w)) w in
                      Done w [(ToRoom rc,
                               turnChanged (name newTurnPlayer)
                                 (name hostPlayer) r);
                              (ToRoom rc, roomUpdate r)]
                end
          | None => fail w sid "Only the host can change turn"
          end
      end
  end.

(** The body that [leaveRoom] and the deferred callback of [disconnect]
    both contain, once the index of the leaving player is known; the
    two copies differ in the text of the log entry only. *)
Definition depart (e : env) (rc : string) (playerIndex : nat)
    (leaver : player) (suffix : string) (r : room) (w : world)
  : world * list emission :=
  let playerName := name leaver in
  let wasCreator := isCreator leaver in
  let r := with_players (delete playerIndex (players r)) r in
  let r := addToGameLog e (playerName +:+ suffix) r in
  let r :=
    match players r with
    | first :: _ =>
        if wasCreator
        then with_creator (name first)
               (with_players (alter (with_isCreator true) 0%nat (players r)) r)
        else r
    | [] => r
    end in
  match players r with
  | [] => (with_rooms (delete rc (rooms w)) w, [])
  | _ =>
      let r :=
        if bool_decide (length (players r) ≤ currentTurn r)%nat
        then with_currentTurn 0 r else r in
      (with_rooms (<[rc := r]> (rooms w)) w,
       [(ToRoom rc, playerLeft playerName None r);
        (ToRoom rc, roomUpdate r)])
  end.

Definition leaveRoom (w : world) (sid : string) (e : env) : outcome :=
  match bound (session w sid) with
  | None => Done w []
  | Some (rc, pid) =>
      match rooms w !! rc with
      | None => Done w []
      | Some r =>
          let '(w, out) :=
            match findPlayer (Some pid) (players r) with
            | Some (playerIndex, leaver) =>
                depart e rc playerIndex leaver " left the game" r w
            | None => (w, [])
            end in
          Done (with_session sid (Socket None None) w) out
      end
  end.

(** [disconnect] changes nothing at once: it looks for a room that holds
    a player bound to this socket and arms a timer of 30 seconds. *)
Definition disconnect (w : world) (sid : string) : outcome := Done w [].

(** The callback of that timer, for the socket [sid] that went away and
    the room code and player id the handler had found. *)
Definition disconnectTimeout (w : world) (sid : string) (e : env)
    (rc pid : string) : outcome :=
  match rooms w !! rc with
  | None => Done w []
  | Some r =>
      match findPlayer (Some pid) (players r) with
      | Some (finalPlayerIndex, currentPlayer) =>
          if bool_decide (socketId currentPlayer = sid)
          then
            let '(w, out) :=
              depart e rc finalPlayerIndex currentPlayer
                " left the game (timeout)" r w in
            Done w out
          else Done w []
      | None => Done w []
      end
  end.

(** ** Requests and runs *)

Inductive request :=
| CreateRoom (creatorName : option string) (startingBalance : Js.value)
| RejoinRoom (roomCode playerId playerName : option string)
| JoinRoom (playerName roomCode : option string)
| PlaceBid (amount : option Z)
| PackCards
| ResetPool
| DeclareWinner (winnerId : option string)
| RemovePlayer (playerIdToRemove : option string)
| ChangeTurn (newTurnPlayerId : option string)
| LeaveRoom
| Disconnect
| DisconnectTimeout (roomCode playerId : string).

Definition handle (w : world) (sid : string) (e : env) (q : request)
  : outcome :=
  match q with
  | CreateRoom n b => createRoom w sid e n b
  | RejoinRoom c p n => rejoinRoom w sid e c p n
  | JoinRoom n c => joinRoom w sid e n c
  | PlaceBid a => placeBid w sid e a
  | PackCards => packCards w sid e
  | ResetPool => resetPool w sid e
  | DeclareWinner x => declareWinner w sid e x
  | RemovePlayer x => removePlayer w sid e x
  | ChangeTurn x => changeTurn w sid e x
  | LeaveRoom => leaveRoom w sid e
  | Disconnect => disconnect w sid
  | DisconnectTimeout c p => disconnectTimeout w sid e c p
  end.

Definition call : Type := string * env * request.

(** The handlers run one after the other, to completion. *)
Fixpoint run (w : world) (cs : list call) : option (world * list emission) :=
  match cs with
  | [] => Some (w, [])
  | (sid, e, q) :: cs =>
      match handle w sid e q with
      | Done w out =>
          match run w cs with
          | Some (w', out') => Some (w', (out ++ out')%list)
          | None => None
          end
      | Uncaught => None
      end
  end.

Definition start : world := World ∅ ∅.

(** ** The specification side: error classes and preconditions *)

(** The error classes of the specification. *)
Inductive errorClass :=
| InvalidInput | RoomNotFound | DuplicateName | NotInRoom | NotYourTurn
| InvalidAmount | InsufficientBalance | AlreadyPacked | Forbidden
| EmptyPool | NotFound | CannotRemoveOwner | TargetInactive | RejoinFailed.

Definition requesterOnly (q : request) : bool :=
  match q with
  | PlaceBid _ | PackCards => true
  | _ => false
  end.

(** The class under which each report of the source falls. The text
    [Player not found] is used both for a requester that is in no room
    ([placeBid], [packCards]) and for a target that is absent. *)
Definition classify (q : request) (m : message) : option errorClass :=
  match m with
  | roomRejoined false _ _ => Some RejoinFailed
  | error text =>
      if String.eqb text "Please enter your name" then Some InvalidInput
      else if String.eqb text "Please enter a valid 4-digit room code"
      then Some InvalidInput
      else if String.eqb text "Room not found. Please check the room code."
      then Some RoomNotFound
      else if String.eqb text
                "A player with this name already exists in the room"
      then Some DuplicateName
      else if String.eqb text "You are not in a room" then Some NotInRoom
      else if String.eqb text "Room not found" then Some NotInRoom
      else if String.eqb text "Player not found"
      then Some (if requesterOnly q then NotInRoom else NotFound)
      else if String.eqb text "It's not your turn!" then Some NotYourTurn
      else if String.eqb text "You can only pack during your turn"
      then Some NotYourTurn
      else if String.eqb text "Please enter a valid bid amount"
      then Some InvalidAmount
      else if String.eqb text "Insufficient balance!"
      then Some InsufficientBalance
      else if String.eqb text "You have already packed"
      then Some AlreadyPacked
      else if String.eqb text "Only the room creator can reset the pool"
      then Some Forbidden
      else if String.eqb text "Only the host can declare a winner"
      then Some Forbidden
      else if String.eqb text "Only the host can remove players"
      then Some Forbidden
      else if String.eqb text "Only the host can change turn"
      then Some Forbidden
      else if String.eqb text "Winner not found" then Some NotFound
      else if String.eqb text "Pool is empty. No winnings to distribute."
      then Some EmptyPool
      else if String.eqb text
                "Host cannot remove themselves. Use Leave Room instead."
      then Some CannotRemoveOwner
      else if String.eqb text "Cannot set turn to a packed player"
      then Some TargetInactive
      else None
  | _ => None
  end.

Definition isFailure (m : message) : Prop :=
  match m with
  | error _ => True
  | roomRejoined false _ _ => True
  | _ => False
  end.

(** The room and the participant a connection is bound to. *)
Definition requester (w : world) (sid : string)
  : option (string * room * nat * player) :=
  '(rc, pid) ← bound (session w sid);
  r ← rooms w !! rc;
  '(i, p) ← findPlayer (Some pid) (players r);
  Some (rc, r, i, p).

(** The preconditions of the eight operations, as the specification
    lists them. *)
Definition precondition (w : world) (sid : string) (q : request) : Prop :=
  match q with
  | JoinRoom n c =>
      ∃ playerName rc r,
        Js.truthy n = Some playerName ∧ Js.blank playerName = false
        ∧ Js.truthy c = Some rc ∧ String.length rc = 4%nat
        ∧ rooms w !! rc = Some r
        ∧ Forall (λ p, Js.toLowerCase (name p) ≠ Js.toLowerCase playerName)
            (players r)
  | RejoinRoom c p n =>
      ∃ rc pid playerName r,
        Js.truthy c = Some rc ∧ Js.truthy p = Some pid
        ∧ Js.truthy n = Some playerName
        ∧ rooms w !! rc = Some r
        ∧ is_Some (findPlayer (Some pid) (players r))
  | PlaceBid a =>
      ∃ rc r i p current amount,
        requester w sid = Some (rc, r, i, p)
        ∧ players r !! currentTurn r = Some current ∧ id current = id p
        ∧ a = Some amount ∧ 0 < amount ∧ amount ≤ balance p
  | PackCards =>
      ∃ rc r i p,
        requester w sid = Some (rc, r, i, p)
        ∧ currentTurn r = i ∧ packed p = false
  | ResetPool =>
      ∃ rc r i p,
        requester w sid = Some (rc, r, i, p) ∧ isCreator p = true
  | DeclareWinner x =>
      ∃ rc r i p,
        requester w sid = Some (rc, r, i, p) ∧ isCreator p = true
        ∧ 0 < pool r ∧ is_Some (findPlayer x (players r))
  | RemovePlayer x =>
      ∃ rc r i p j target,
        requester w sid = Some (rc, r, i, p) ∧ isCreator p = true
        ∧ findPlayer x (players r) = Some (j, target)
        ∧ isCreator target = false
  | ChangeTurn x =>
      ∃ rc r i p j target,
        requester w sid = Some (rc, r, i, p) ∧ isCreator p = true
        ∧ findPlayer x (players r) = Some (j, target)
        ∧ packed target = false
  | _ => True
  end.

Definition stateMachineOp (q : request) : bool :=
  match q with
  | JoinRoom _ _ | RejoinRoom _ _ _ | PlaceBid _ | PackCards | ResetPool
  | DeclareWinner _ | RemovePlayer _ | ChangeTurn _ => true
  | _ => false
  end.

(** A call that reports a failure reports nothing else and changes
    nothing. *)
Definition rejected (w : world) (sid : string) (q : request) (o : outcome)
  : Prop :=
  ∃ m c, o = Done w [(ToSocket sid, m)] ∧ isFailure m ∧ classify q m = Some c.

Definition ownerOf (w : world) (sid : string) (rc : string) (r : room) : Prop :=
  ∃ i p, requester w sid = Some (rc, r, i, p) ∧ isCreator p = true.

(** A string of decimal digits only. *)
Fixpoint allDigits (s : string) : bool :=
  match s with
  | String c s' => bool_decide (is_Some (Js.digit 10 c)) && allDigits s'
  | EmptyString => true
  end.

(** ** The specification side: settlement *)

(** Settlement as the specification words it: credit the pool to the
    winner (the participant at index [j]), zero the pool, increment the
    round, reset the count of bids, clear every packed flag, set the
    turn to the winner. *)
Definition settlement (j : nat) (r : room) : room :=
  {| code := code r;
     creator := creator r;
     startingBalance := startingBalance r;
     players :=
       with_packed false
         <$> alter (λ p, with_balance (balance p + pool r) p) j (players r);
     pool := 0;
     currentTurn := j;
     round := round r + 1;
     gameLog := gameLog r;
     totalBids := 0 |}.

(** Equal rooms, but for the log. *)
Definition sameButLog (a b : room) : Prop :=
  with_gameLog [] a = with_gameLog [] b.

(** The room at the point where [packCards] counts the active players:
    the player at index [i] has been packed and the turn advanced. *)
Definition afterPack (e : env) (i : nat) (p : player) (r : room) : room :=
  moveToNextActivePlayer
    (addToGameLog e (name p +:+ " packed (folded)")
       (with_players (alter (with_packed true) i (players r)) r)).

(** ** The pool as the events tell it *)

(** One event, applied to a running count for room [rc]: a bid adds
    its amount, a win, a reset and the creation of the room set the
    count to 0. *)
Definition tallyStep (rc : string) (acc : Z) (em : emission) : Z :=
  match em with
  | (ToRoom c, bidPlaced _ amount _) =>
      if bool_decide (c = rc) then acc + amount else acc
  | (ToRoom c, winnerDeclared _ _ _ _ _) =>
      if bool_decide (c = rc) then 0 else acc
  | (ToRoom c, poolReset _ _ _) =>
      if bool_decide (c = rc) then 0 else acc
  | (_, roomCreated c _ _) =>
      if bool_decide (c = rc) then 0 else acc
  | _ => acc
  end.

(** The count over the events of a sequence of calls. *)
Definition tally (rc : string) (acc : Z) (out : list emission) : Z :=
  foldl (tallyStep rc) acc out.

(** The invariant of a room in the registry. *)
Definition roomOk (r : room) : Prop :=
  (currentTurn r < length (players r))%nat ∧ 0 ≤ pool r.

(** The registry against a ledger [L] of expected pools. *)
Definition agrees (w : world) (L : string → Z) : Prop :=
  ∀ rc r, rooms w !! rc = Some r → roomOk r ∧ pool r = L rc.

(** ** Sample rooms and runs *)

(** Two rooms written out. *)
Definition twoPacked : room :=
  {| code := "1234"; creator := "A"; startingBalance := 1000;
     players :=
       [ Player "player_1_a" "s1" "A" 1000 true true;
         Player "player_2_b" "s2" "B" 1000 false true ];
     pool := 0; currentTurn := 0; round := 1; gameLog := []; totalBids := 0 |}.

Definition threeWithOnePacked : room :=
  {| code := "1234"; creator := "A"; startingBalance := 1000;
     players :=
       [ Player "player_1_a" "s1" "A" 900 true false;
         Player "player_2_b" "s2" "B" 1000 false true;
         Player "player_3_c" "s3" "C" 1000 false false ];
     pool := 100; currentTurn := 0; round := 1; gameLog := [];
     totalBids := 1 |}.

(** The environment of call number [k] of a small game; the generator
    draws the room code 1234. *)
Definition at_ (k : Z) : env :=
  {| clock_ms := k; clock_text := "12:00:00";
     random_code := 234; random_id := "k3j9x0q2a" |}.

(** A creates the room, B and C join. *)
Definition three : list call :=
  [ ("sA", at_ 1, CreateRoom (Some "A") (Js.Num 1000));
    ("sB", at_ 2, JoinRoom (Some "B") (Some "1234"));
    ("sC", at_ 3, JoinRoom (Some "C") (Some "1234")) ].

(** A bids, B packs, C bids: A and C are still in. *)
Definition lastStanding : list call :=
  (three ++ [ ("sA", at_ 4, PlaceBid (Some 100));
              ("sB", at_ 5, PackCards);
              ("sC", at_ 6, PlaceBid (Some 50)) ])%list.

(** Then A packs, which leaves C alone and settles the round, and C
    opens the next round with a bid. *)
Definition secondRound : list call :=
  (three ++ [ ("sA", at_ 4, PlaceBid (Some 100));
              ("sB", at_ 5, PackCards);
              ("sC", at_ 6, PlaceBid (Some 50));
              ("sA", at_ 7, PackCards);
              ("sC", at_ 8, PlaceBid (Some 30)) ])%list.

(** What a run from the empty registry leaves behind. *)
Definition roomOf (c : string) (cs : list call) : option room :=
  match run start cs with
  | Some (w, _) => rooms w !! c
  | None => None
  end.

Definition turnOf (c : string) (cs : list call) : option nat :=
  currentTurn <$> roomOf c cs.

Definition packedOf (c : string) (cs : list call) : option (list bool) :=
  (λ r, packed <$> players r) <$> roomOf c cs.

Definition worldAfter (cs : list call) : world :=
  match run start cs with
  | Some (w, _) => w
  | None => start
  end.

Definition eventsAfter (cs : list call) : list emission :=
  match run start cs with
  | Some (_, out) => out
  | None => []
  end.

Definition noRoom : room := Room "" "" 0 [] 0 0 0 [] 0.

Definition roomAfter (c : string) (cs : list call) : room :=
  default noRoom (roomOf c cs).

Definition playerAt (j : nat) (r : room) : player :=
  default (Player "" "" "" 0 false false) (players r !! j).

(** ** What every room of the registry satisfies *)

(** Who is in the room and who owns it: the part of the players that
    bids, packs and reconnections leave alone. *)
Definition roles (r : room) : list (bool * string) :=
  (λ p, (isCreator p, name p)) <$> players r.

Definition lowerNames (r : room) : list string :=
  (λ p, Js.toLowerCase (name p)) <$> players r.

(** One player is flagged as creator, and [room.creator] is that
    player's name. *)
Definition ownerIn (c : string) (l : list (bool * string)) : Prop :=
  ∃ i, l !! i = Some (true, c) ∧ ∀ j n, l !! j = Some (true, n) → j = i.

Definition oneOwner (r : room) : Prop := ownerIn (creator r) (roles r).

(** No balance is below zero, or below the starting balance when that
    is negative. *)
Definition solvent (r : room) : Prop :=
  Forall (λ p, Z.min 0 (startingBalance r) ≤ balance p) (players r).

Definition roomSound (rc : string) (r : room) : Prop :=
  code r = rc
  ∧ (length (gameLog r) ≤ 50)%nat
  ∧ 1 ≤ round r
  ∧ 0 ≤ totalBids r
  ∧ NoDup (lowerNames r)
  ∧ oneOwner r
  ∧ solvent r.

Definition registrySound (w : world) : Prop :=
  ∀ rc r, rooms w !! rc = Some r → roomSound rc r.

Definition sound (w : world) : Prop :=
  ∀ rc r, rooms w !! rc = Some r → roomOk r ∧ roomSound rc r.

(** The chips of a room: the pool and all the balances. *)
Definition chips (r : room) : Z :=
  pool r + foldr Z.add 0 (balance <$> players r).

(** The turn is on a player that has not packed, if there is one. *)
Definition turnOnActive (r : room) : Prop :=
  Exists (λ p, packed p = false) (players r) →
  packedAt (players r) (currentTurn r) = false.


(** The requests whose handlers leave the turn on an active player. *)
Definition settlesTurn (q : request) : bool :=
  match q with
  | CreateRoom _ _ | JoinRoom _ _ | PlaceBid _ | PackCards | ResetPool
  | DeclareWinner _ | ChangeTurn _ => true
  | _ => false
  end.

(** The two parts of what a call returns. *)
Definition worldOf (o : outcome) : world :=
  match o with
  | Done w _ => w
  | Uncaught => start
  end.

Definition eventsOf (o : outcome) : list emission :=
  match o with
  | Done _ out => out
  | Uncaught => []
  end.

(** ** The pool as the calls tell it *)

(** What a call means for the pool of a room. It is read off the
    request and the state the call is made in, by the preconditions of
    the specification, and not off what the handler answers: a room is
    opened, a bid is placed, a round is settled (a declared winner, or
    a pack that leaves exactly one participant active), or the game is
    started again by [ResetPool]. *)
Inductive poolEvent :=
| Opened (rc : string)
| Bid (rc : string) (amount : Z)
| Settled (rc : string)
| Restarted (rc : string).

(** The pack of the participant at index [i] leaves exactly one
    participant active. *)
Definition packLeavesOne (i : nat) (r : room) : bool :=
  bool_decide
    (length (filter (λ q, packed q = false)
               (alter (with_packed true) i (players r))) = 1%nat).

Definition poolEventOf (w : world) (sid : string) (e : env) (q : request)
  : option poolEvent :=
  match q with
  | CreateRoom n _ =>
      cname ← Js.truthy n;
      if Js.blank cname then None else Some (Opened (generateRoomCode e))
  | PlaceBid (Some amount) =>
      '(rc, r, i, p) ← requester w sid;
      current ← players r !! currentTurn r;
      if bool_decide (id current = id p ∧ 0 < amount ∧ amount ≤ balance p)
      then Some (Bid rc amount) else None
  | PackCards =>
      '(rc, r, i, p) ← requester w sid;
      if bool_decide (currentTurn r = i ∧ packed p = false)
         && packLeavesOne i r
      then Some (Settled rc) else None
  | DeclareWinner x =>
      '(rc, r, i, p) ← requester w sid;
      if bool_decide (isCreator p = true ∧ 0 < pool r
                      ∧ is_Some (findPlayer x (players r)))
      then Some (Settled rc) else None
  | ResetPool =>
      '(rc, r, i, p) ← requester w sid;
      if isCreator p then Some (Restarted rc) else None
  | _ => None
  end.











(** ** Numbers *)

(** The handlers compute on numbers of the language, which are
    doubles; every number of the model is an integer, and sums and
    differences are the exact ones. The two agree as long as the
    results are integers of magnitude at most 2^53: a theorem that
    depends on a sum or a difference computed by a handler says so. *)
Definition safeInteger (z : Z) : bool := bool_decide (- 2 ^ 53 ≤ z ≤ 2 ^ 53).





(** B joins in the same millisecond as the room is created and with
    the same random draw: A and B have the same id. A packs, the
    connection of B bids 100. *)
Definition sharedId : list call :=
  [ ("sA", at_ 1, CreateRoom (Some "A") (Js.Num 1000));
    ("sB", at_ 1, JoinRoom (Some "B") (Some "1234"));
    ("sC", at_ 3, JoinRoom (Some "C") (Some "1234"));
    ("sA", at_ 4, PackCards);
    ("sB", at_ 5, PlaceBid (Some 100)) ].

(** * Properties *)

(** ** Turn advance *)

Section TurnAdvance.

Variable ps : list player.
Let total := length ps.

Lemma packedAt_true (i : nat) :
  packedAt ps i = true ↔ ∃ p, ps !! i = Some p ∧ packed p = true.
Proof.
  unfold packedAt. destruct (ps !! i) as [p|]; split.
  - eauto.
  - by intros (? & [= <-] & ?).
  - done.
  - by intros (? & ? & _).
Qed.

(** The loop stops within the fuel it is given here, in a state where
    its condition is false; up to there it has only stepped over
    packed players. *)
Lemma skipPacked_steps (fuel turn attempts : nat) :
  (turn < total)%nat → (total ≤ fuel + attempts)%nat →
  (attempts ≤ total)%nat →
  ∃ n : nat,
    skipPacked fuel ps total turn attempts
      = (((turn + n) mod total)%nat, (attempts + n)%nat)
    ∧ (attempts + n ≤ total)%nat
    ∧ (∀ j, (j < n)%nat → packedAt ps ((turn + j) mod total) = true)
    ∧ ((attempts + n < total)%nat →
       packedAt ps ((turn + n) mod total) = false).
Proof.
  revert turn attempts.
  induction fuel as [|fuel IH]; intros turn attempts Hturn Hfuel Hle.
  - exists 0%nat. simpl. rewrite Nat.add_0_r, Nat.mod_small by done.
    split_and!; [by rewrite Nat.add_0_r | lia | lia | lia].
  - simpl. destruct (packedAt ps turn) eqn:Hp; simpl.
    + case_bool_decide as Hlt.
      * destruct (IH ((turn + 1) mod total)%nat (S attempts))
          as (n & Heq & Hn & Hall & Hstop);
          [apply Nat.mod_upper_bound; lia | lia | lia |].
        exists (S n). rewrite Heq.
        rewrite Nat.Div0.add_mod_idemp_l.
        replace (turn + 1 + n)%nat with (turn + S n)%nat by lia.
        replace (S attempts + n)%nat with (attempts + S n)%nat by lia.
        split_and!; [done | lia | |].
        -- intros [|j] Hj.
           ++ by rewrite Nat.add_0_r, Nat.mod_small.
           ++ specialize (Hall j ltac:(lia)).
              rewrite Nat.Div0.add_mod_idemp_l in Hall.
              by replace (turn + S j)%nat with (turn + 1 + j)%nat by lia.
        -- intros Hlt'. specialize (Hstop ltac:(lia)).
           rewrite Nat.Div0.add_mod_idemp_l in Hstop.
           by replace (turn + S n)%nat with (turn + 1 + n)%nat by lia.
      * exists 0%nat. rewrite !Nat.add_0_r, Nat.mod_small by done.
        split_and!; [done | lia | lia | lia].
    + exists 0%nat. rewrite !Nat.add_0_r, Nat.mod_small by done.
      split_and!; [done | lia | lia | done].
Qed.

(** A full circle, started anywhere, passes every index. *)
Lemma circle_covers (turn i : nat) :
  (turn < total)%nat → (i < total)%nat →
  ∃ j, (j < total)%nat ∧ ((turn + j) mod total)%nat = i.
Proof.
  intros Ht Hi. destruct (decide (turn ≤ i)%nat).
  - exists (i - turn)%nat. split; [lia|].
    replace (turn + (i - turn))%nat with i by lia. by apply Nat.mod_small.
  - exists (total - turn + i)%nat. split; [lia|].
    replace (turn + (total - turn + i))%nat with (i + 1 * total)%nat by lia.
    rewrite Nat.Div0.mod_add. by apply Nat.mod_small.
Qed.

Lemma firstActive_all_packed :
  Forall (λ p, packed p = true) ps → firstActive ps = None.
Proof.
  intros Hall. unfold firstActive.
  replace (list_find (λ p, packed p = false) ps) with (@None (nat * player));
    [done|].
  symmetry. apply list_find_None.
  eapply Forall_impl; [exact Hall|]. simpl. intros p ->. done.
Qed.

End TurnAdvance.

Lemma moveToNextActivePlayer_players (r : room) :
  players (moveToNextActivePlayer r) = players r.
Proof.
  unfold moveToNextActivePlayer. by destruct (players r) eqn:E; simpl.
Qed.

(** What the function computes, in one statement: [n] is the number of
    packed players it steps over, starting after the current turn. *)
Lemma moveToNextActivePlayer_scan (r : room) :
  players r ≠ [] →
  ∃ n : nat,
    (n ≤ length (players r))%nat
    ∧ currentTurn (moveToNextActivePlayer r)
      = ((currentTurn r + 1 + n) mod length (players r))%nat
    ∧ (∀ j, (j < n)%nat →
         packedAt (players r)
           ((currentTurn r + 1 + j) mod length (players r)) = true)
    ∧ ((n < length (players r))%nat →
         packedAt (players r) (currentTurn (moveToNextActivePlayer r)) = false)
    ∧ ((n = length (players r))%nat →
         Forall (λ p, packed p = true) (players r)).
Proof.
  intros Hne. unfold moveToNextActivePlayer.
  destruct (players r) as [|p0 ps0] eqn:Hps; [done|].
  remember (p0 :: ps0) as ps eqn:Eps.
  assert (0 < length ps)%nat as Hpos by (subst ps; simpl; lia).
  clear Eps Hne Hps.
  destruct (skipPacked_steps ps (length ps)
              ((currentTurn r + 1) mod length ps)%nat 0%nat)
    as (n & Heq & Hn & Hall & Hstop);
    [apply Nat.mod_upper_bound; lia | lia | lia |].
  rewrite Heq. simpl in *. rewrite Nat.Div0.add_mod_idemp_l in *.
  assert ((n = length ps)%nat → Forall (λ p, packed p = true) ps) as Hfull.
  { intros ->. apply Forall_lookup. intros i p Hi.
    destruct (circle_covers ps ((currentTurn r + 1) mod length ps)%nat i)
      as (j & Hj & Hji);
      [apply Nat.mod_upper_bound; lia | by eapply lookup_lt_Some |].
    rewrite Nat.Div0.add_mod_idemp_l in Hji.
    specialize (Hall j Hj).
    rewrite Nat.Div0.add_mod_idemp_l, Hji in Hall.
    apply packedAt_true in Hall as (p' & Hp' & Hpk). congruence. }
  exists n. split_and!; try done.
  - case_bool_decide as Hge; [|done].
    assert (n = length ps) as Hnl by lia.
    by rewrite (firstActive_all_packed ps (Hfull Hnl)).
  - intros j Hj. specialize (Hall j Hj).
    by rewrite Nat.Div0.add_mod_idemp_l in Hall.
  - intros Hlt. rewrite bool_decide_false by lia. auto.
Qed.

(** C2, counterexample: with every participant inactive the turn does
    not stay where it was; in a room of two it moves from 0 to 1. *)
Lemma C2_all_inactive_moves :
  (1 ≤ length (players twoPacked))%nat
  ∧ Forall (λ p, packed p = true) (players twoPacked)
  ∧ currentTurn (moveToNextActivePlayer twoPacked) = 1%nat
  ∧ currentTurn (moveToNextActivePlayer twoPacked) ≠ currentTurn twoPacked.
Proof.
  split_and!; [simpl; lia | | reflexivity | discriminate].
  repeat constructor.
Qed.

(** C2, amended: in a room of [N >= 1] participants the turn advance
    sets [currentTurn] to the first index, scanning circularly from
    [(currentTurn + 1) mod N], whose participant is not packed, so it
    never selects a packed participant while an active one exists; when
    every participant is packed it sets [currentTurn] to
    [(currentTurn + 1) mod N]. Nothing else in the room changes. *)
Theorem C2_turn_advance (r : room) :
  (1 ≤ length (players r))%nat →
  let N := length (players r) in
  let r' := moveToNextActivePlayer r in
  (Exists (λ p, packed p = false) (players r) →
     ∃ k : nat,
       (k < N)%nat
       ∧ currentTurn r' = ((currentTurn r + 1 + k) mod N)%nat
       ∧ packedAt (players r) (currentTurn r') = false
       ∧ ∀ j, (j < k)%nat →
           packedAt (players r) ((currentTurn r + 1 + j) mod N) = true)
  ∧ (Forall (λ p, packed p = true) (players r) →
     currentTurn r' = ((currentTurn r + 1) mod N)%nat)
  ∧ r' = with_currentTurn (currentTurn r') r.
Proof.
  intros HN N r'.
  assert (players r ≠ []) as Hne by (intros E; rewrite E in HN; simpl in HN; lia).
  destruct (moveToNextActivePlayer_scan r Hne)
    as (n & Hn & Hturn & Hall & Hstop & Hfull).
  fold N in Hn, Hturn, Hall, Hstop, Hfull. fold r' in Hturn, Hstop.
  split_and!.
  - intros Hact. exists n.
    assert (n < N)%nat as Hlt.
    { destruct (decide (n = N)) as [E|]; [|lia].
      apply Exists_exists in Hact as (p & Hp & Hpk).
      specialize (Hfull E). rewrite Forall_forall in Hfull.
      specialize (Hfull p Hp). congruence. }
    auto.
  - intros Hpk. rewrite Hturn.
    assert (n = N) as ->.
    { destruct (decide (n = N)) as [|]; [done|].
      specialize (Hstop ltac:(lia)).
      assert (currentTurn r' < N)%nat as Hin.
      { rewrite Hturn. apply Nat.mod_upper_bound. lia. }
      apply lookup_lt_is_Some in Hin as [p Hp].
      unfold packedAt in Hstop. rewrite Hp in Hstop.
      rewrite Forall_lookup in Hpk. specialize (Hpk _ _ Hp). congruence. }
    replace (currentTurn r + 1 + N)%nat with (currentTurn r + 1 + 1 * N)%nat
      by lia.
    by rewrite Nat.Div0.mod_add.
  - subst r'. unfold moveToNextActivePlayer.
    destruct (players r); [by destruct r | done].
Qed.

(** A bids in a room of three where B has packed: the turn goes to C. *)
Lemma C2_turn_advance_witness :
  currentTurn (moveToNextActivePlayer threeWithOnePacked) = 2%nat
  ∧ ∃ k : nat,
      (k < 3)%nat
      ∧ currentTurn (moveToNextActivePlayer threeWithOnePacked)
        = ((0 + 1 + k) mod 3)%nat
      ∧ packedAt (players threeWithOnePacked)
          (currentTurn (moveToNextActivePlayer threeWithOnePacked)) = false
      ∧ ∀ j, (j < k)%nat →
          packedAt (players threeWithOnePacked) ((0 + 1 + j) mod 3) = true.
Proof.
  split; [reflexivity|].
  refine (proj1 (C2_turn_advance threeWithOnePacked _) _).
  - simpl. lia.
  - apply Exists_cons_hd. reflexivity.
Defined.

(** ** Removing a participant *)

(** The turn after a removal that the handler accepts. *)
Lemma removePlayer_turn (w : world) (sid : string) (e : env)
    (x : option string) (rc pid : string) (r : room)
    (i j : nat) (host target : player) :
  bound (session w sid) = Some (rc, pid) →
  rooms w !! rc = Some r →
  findPlayer (Some pid) (players r) = Some (i, host) →
  isCreator host = true →
  findPlayer x (players r) = Some (j, target) →
  isCreator target = false →
  ∃ r' out,
    removePlayer w sid e x = Done (with_rooms (<[rc := r']> (rooms w)) w) out
    ∧ players r' = delete j (players r)
    ∧ currentTurn r' =
        if bool_decide (length (players r) - 1 ≤ currentTurn r)%nat then 0%nat
        else if bool_decide (j < currentTurn r)%nat
             then (currentTurn r - 1)%nat
             else currentTurn r.
Proof.
  intros Hb Hr Hh Hc Ht Hnc. unfold removePlayer.
  rewrite Hb, Hr, Hh, Hc, Ht, Hnc. cbn [negb].
  assert (j < length (players r))%nat as Hj.
  { apply list_find_Some in Ht as (Hl & _). by eapply lookup_lt_Some. }
  eexists _, _. split; [reflexivity|].
  cbn [with_players addToGameLog with_gameLog players currentTurn
       with_currentTurn].
  rewrite length_delete by (by apply lookup_lt_is_Some).
  repeat case_bool_decide; done.
Qed.

(** The turn after an accepted removal, case by case. *)
Corollary removePlayer_turn_kept (w : world) (sid : string) (e : env)
    (x : option string) (rc pid : string) (r : room)
    (i j : nat) (host target : player) :
  bound (session w sid) = Some (rc, pid) →
  rooms w !! rc = Some r →
  findPlayer (Some pid) (players r) = Some (i, host) →
  isCreator host = true →
  findPlayer x (players r) = Some (j, target) →
  isCreator target = false →
  ∃ r' out,
    removePlayer w sid e x = Done (with_rooms (<[rc := r']> (rooms w)) w) out
    ∧ ((currentTurn r < j)%nat → currentTurn r' = currentTurn r)
    ∧ ((j < currentTurn r < length (players r) - 1)%nat →
       currentTurn r' = (currentTurn r - 1)%nat)
    ∧ ((j < currentTurn r)%nat →
       (currentTurn r = length (players r) - 1)%nat →
       currentTurn r' = 0%nat).
Proof.
  intros Hb Hr Hh Hc Ht Hnc.
  destruct (removePlayer_turn w sid e x rc pid r i j host target)
    as (r' & out & Heq & _ & Hturn); try done.
  assert (j < length (players r))%nat as Hj.
  { apply list_find_Some in Ht as (Hl & _). by eapply lookup_lt_Some. }
  exists r', out. split; [done|]. rewrite Hturn.
  split_and!; intros; repeat case_bool_decide; lia.
Qed.

(** C1, the case the handler misses: A (owner), B and C play; after A
    and B have bid the turn is on C, at index 2. The owner removes B,
    whose index 1 is before the turn. The turn should follow C to
    index 1; the handler tests the range first, against the shortened
    list, and puts the turn on index 0. *)
Theorem C1_turn_lost_at_last_index :
  let before :=
    (three ++ [ ("sA", at_ 4, PlaceBid (Some 100));
                ("sB", at_ 5, PlaceBid (Some 50)) ])%list in
  let after :=
    (before ++ [ ("sA", at_ 6, RemovePlayer (Some "player_2_k3j9x0q2a")) ])%list
  in
  turnOf "1234" before = Some 2%nat
  ∧ (name <$> (roomOf "1234" before ≫= λ r, players r !! 1%nat)) = Some "B"
  ∧ (name <$> (roomOf "1234" after ≫= λ r, players r !! 1%nat)) = Some "C"
  ∧ turnOf "1234" after = Some 0%nat.
Proof. by vm_compute. Qed.

(** ** The turn and the packed players *)

(** C3, a reachable state that breaks the invariant: A (owner), B and C
    play; A bids, B packs, C bids, and the turn is back on A at index
    0. A leaves: B moves to index 0, the turn stays 0, and B is packed
    while C is not. *)
Theorem C3_turn_on_packed_after_leave :
  let calls :=
    (three ++ [ ("sA", at_ 4, PlaceBid (Some 100));
                ("sB", at_ 5, PackCards);
                ("sC", at_ 6, PlaceBid (Some 50));
                ("sA", at_ 7, LeaveRoom) ])%list in
  turnOf "1234" calls = Some 0%nat
  ∧ packedOf "1234" calls = Some [true; false].
Proof. by vm_compute. Qed.

(** ** Fields that the helpers leave alone *)

Lemma addToGameLog_players e m r : players (addToGameLog e m r) = players r.
Proof. done. Qed.
Lemma addToGameLog_pool e m r : pool (addToGameLog e m r) = pool r.
Proof. done. Qed.
Lemma addToGameLog_currentTurn e m r :
  currentTurn (addToGameLog e m r) = currentTurn r.
Proof. done. Qed.
Lemma addToGameLog_round e m r : round (addToGameLog e m r) = round r.
Proof. done. Qed.
Lemma addToGameLog_totalBids e m r :
  totalBids (addToGameLog e m r) = totalBids r.
Proof. done. Qed.
Lemma addToGameLog_startingBalance e m r :
  startingBalance (addToGameLog e m r) = startingBalance r.
Proof. done. Qed.

Lemma moveToNextActivePlayer_eq r :
  moveToNextActivePlayer r
  = with_currentTurn (currentTurn (moveToNextActivePlayer r)) r.
Proof.
  unfold moveToNextActivePlayer. destruct (players r); [by destruct r | done].
Qed.

Lemma ensureActiveTurn_eq r :
  ensureActiveTurn r = with_currentTurn (currentTurn (ensureActiveTurn r)) r.
Proof.
  unfold ensureActiveTurn. destruct (players r); [by destruct r|].
  destruct (packedAt _ _); [done | by destruct r].
Qed.

Lemma moveToNextActivePlayer_pool r : pool (moveToNextActivePlayer r) = pool r.
Proof. by rewrite moveToNextActivePlayer_eq. Qed.
Lemma ensureActiveTurn_pool r : pool (ensureActiveTurn r) = pool r.
Proof. by rewrite ensureActiveTurn_eq. Qed.
Lemma ensureActiveTurn_players r : players (ensureActiveTurn r) = players r.
Proof. by rewrite ensureActiveTurn_eq. Qed.

Lemma moveToNextActivePlayer_unfold r :
  players r ≠ [] →
  moveToNextActivePlayer r
  = with_currentTurn
      (afterSkip (players r) (length (players r))
         (skipPacked (length (players r)) (players r) (length (players r))
            ((currentTurn r + 1) mod length (players r)) 0)) r.
Proof. unfold moveToNextActivePlayer. by destruct (players r). Qed.

Lemma afterSkip_lt (ps : list player) (st : nat * nat) :
  (st.1 < length ps)%nat → (afterSkip ps (length ps) st < length ps)%nat.
Proof.
  destruct st as [turn attempts]. simpl. intros Hlt.
  case_bool_decide; [|done].
  unfold firstActive.
  destruct (list_find _ ps) as [[i p]|] eqn:Hf; simpl; [|done].
  apply list_find_Some in Hf as (Hl & _). by eapply lookup_lt_Some.
Qed.

Lemma skipPacked_lt (fuel : nat) (ps : list player) (turn attempts : nat) :
  (turn < length ps)%nat →
  ((skipPacked fuel ps (length ps) turn attempts).1 < length ps)%nat.
Proof.
  revert turn attempts. induction fuel as [|fuel IH]; intros turn attempts Hlt.
  - done.
  - simpl. destruct (_ && _); [|done].
    apply IH, Nat.mod_upper_bound. lia.
Qed.

Lemma moveToNextActivePlayer_lt r :
  players r ≠ [] →
  (currentTurn (moveToNextActivePlayer r) < length (players r))%nat.
Proof.
  intros Hne. rewrite moveToNextActivePlayer_unfold by done.
  cbn [currentTurn with_currentTurn].
  apply afterSkip_lt, skipPacked_lt, Nat.mod_upper_bound.
  destruct (players r); [done | simpl; lia].
Qed.

Lemma ensureActiveTurn_lt r :
  (currentTurn r < length (players r))%nat →
  (currentTurn (ensureActiveTurn r) < length (players r))%nat.
Proof.
  intros Hlt. unfold ensureActiveTurn.
  destruct (players r) as [|p0 ps0] eqn:Hps; [done|]. rewrite <- Hps in *.
  destruct (packedAt _ _); [|done]. cbn [currentTurn with_currentTurn].
  by apply afterSkip_lt, skipPacked_lt.
Qed.

Lemma moveToNextActivePlayer_below r (n : nat) :
  length (players r) = n → (0 < n)%nat →
  (currentTurn (moveToNextActivePlayer r) < n)%nat.
Proof.
  intros <- Hpos. apply moveToNextActivePlayer_lt.
  destruct (players r); [simpl in Hpos; lia | done].
Qed.

Lemma ensureActiveTurn_below r (n : nat) :
  length (players r) = n → (currentTurn r < n)%nat →
  (currentTurn (ensureActiveTurn r) < n)%nat.
Proof. intros <-. apply ensureActiveTurn_lt. Qed.

Lemma findPlayer_lt x ps i p :
  findPlayer x ps = Some (i, p) → (i < length ps)%nat.
Proof.
  intros (Hl & _)%list_find_Some. by eapply lookup_lt_Some.
Qed.

Lemma findPlayer_lookup x ps i p :
  findPlayer x ps = Some (i, p) → ps !! i = Some p ∧ Some (id p) = x.
Proof. intros (Hl & Hp & _)%list_find_Some. done. Qed.

(** ** The pool and the bids *)

Lemma agrees_same (w w' : world) (L L' : string → Z) :
  agrees w L → rooms w' = rooms w → (∀ c, L' c = L c) → agrees w' L'.
Proof.
  intros HI Hr HL rc r. rewrite Hr, HL. apply HI.
Qed.

Lemma agrees_insert (w w' : world) (L L' : string → Z) (rc : string)
    (r' : room) :
  agrees w L →
  rooms w' = <[rc := r']> (rooms w) →
  roomOk r' → pool r' = L' rc → (∀ c, c ≠ rc → L' c = L c) →
  agrees w' L'.
Proof.
  intros HI Hr Hok Hp HL c r. rewrite Hr.
  destruct (decide (rc = c)) as [<-|Hne].
  - rewrite lookup_insert_eq. by intros [= <-].
  - rewrite lookup_insert_ne by done. rewrite HL by done. apply HI.
Qed.

Lemma agrees_delete (w w' : world) (L L' : string → Z) (rc : string) :
  agrees w L →
  rooms w' = delete rc (rooms w) →
  (∀ c, c ≠ rc → L' c = L c) →
  agrees w' L'.
Proof.
  intros HI Hr HL c r. rewrite Hr.
  destruct (decide (rc = c)) as [<-|Hne].
  - by rewrite lookup_delete_eq.
  - rewrite lookup_delete_ne by done. rewrite HL by done. apply HI.
Qed.

Arguments moveToNextActivePlayer : simpl never.
Arguments ensureActiveTurn : simpl never.
Arguments addToGameLog : simpl never.

Lemma winnerIndex_lt (x : option string) (ps : list player) (n : nat) :
  length ps = n → (0 < n)%nat →
  (default 0%nat (fst <$> findPlayer x ps) < n)%nat.
Proof.
  intros <- Hpos. destruct (findPlayer x ps) as [[i p]|] eqn:Hf; simpl.
  - by eapply findPlayer_lt.
  - done.
Qed.

Create Rewrite HintDb room.
#[local] Hint Rewrite
  addToGameLog_players addToGameLog_pool addToGameLog_currentTurn
  addToGameLog_round addToGameLog_totalBids addToGameLog_startingBalance
  moveToNextActivePlayer_players moveToNextActivePlayer_pool
  ensureActiveTurn_players ensureActiveTurn_pool : room.
#[local] Hint Rewrite @length_alter @length_fmap @length_app : room.

Ltac fields :=
  repeat (progress (autorewrite with room;
                    cbn [players pool currentTurn round totalBids gameLog
                         startingBalance code creator
                         with_players with_pool with_currentTurn with_round
                         with_totalBids with_gameLog with_creator])).

Ltac bool_hyps :=
  repeat match goal with
  | H : _ || _ = false |- _ => apply orb_false_iff in H as [? ?]
  | H : bool_decide _ = false |- _ => apply bool_decide_eq_false in H
  | H : bool_decide _ = true |- _ => apply bool_decide_eq_true in H
  | H : negb _ = false |- _ => apply negb_false_iff in H
  | H : negb _ = true |- _ => apply negb_true_iff in H
  end.

Ltac handler_cases :=
  unfold createRoom, rejoinRoom, joinRoom, placeBid, packCards, resetPool,
    declareWinner, removePlayer, changeTurn, leaveRoom, disconnect,
    disconnectTimeout, depart, fail, rejoinFailed;
  repeat case_match; intros; simplify_eq; bool_hyps.

Ltac tally_other :=
  intros; unfold tally; simpl; repeat case_bool_decide; congruence.

Ltac tally_here :=
  unfold tally; simpl; rewrite ?bool_decide_true by done.

Ltac keep_registry :=
  eapply agrees_same; [eassumption | reflexivity | tally_other].

Ltac known_room HI :=
  match goal with
  | H : rooms _ !! _ = Some _ |- _ =>
      let Hturn := fresh "Hturn" in
      let Hpool := fresh "Hpool" in
      let HL := fresh "HL" in
      destruct (HI _ _ H) as [[Hturn Hpool] HL]
  end.

Ltac found_players :=
  repeat match goal with
  | H : findPlayer _ _ = Some _ |- _ =>
      let Hlt := fresh "Hlt" in
      pose proof (findPlayer_lt _ _ _ _ H) as Hlt;
      apply findPlayer_lookup in H as [? ?]
  end.

Ltac turn_below :=
  repeat first
    [ eapply ensureActiveTurn_below; [by fields|]
    | eapply moveToNextActivePlayer_below; [by fields|]
    | eapply winnerIndex_lt; [by fields|] ];
  fields; simpl; try lia.

Ltac put_room HI :=
  known_room HI;
  eapply agrees_insert;
    [eassumption | reflexivity | split | tally_here | tally_other];
  fields.

Lemma depart_agrees e rc i p suffix r w w' out L :
  agrees w L → rooms w !! rc = Some r → players r !! i = Some p →
  depart e rc i p suffix r w = (w', out) →
  agrees w' (λ c, tally c (L c) out).
Proof.
  intros HI Hr Hp. destruct (HI _ _ Hr) as [[Hturn Hpool] HL].
  unfold depart.
  set (r1 := addToGameLog e _ (with_players (delete i (players r)) r)).
  set (r2 := match players r1 with
             | first :: _ => if isCreator p then _ else r1
             | [] => r1
             end).
  assert (length (players r2) = length (players r) - 1
          ∧ pool r2 = pool r ∧ currentTurn r2 = currentTurn r)%nat
    as (Hlen & Hpool2 & Hturn2).
  { assert (length (players r1) = length (players r) - 1)%nat as Hlen1.
    { subst r1. fields. by rewrite length_delete by eauto. }
    assert (pool r1 = pool r ∧ currentTurn r1 = currentTurn r) as [Hp1 Ht1]
      by done.
    clearbody r1. subst r2.
    destruct (players r1) as [|p0 l] eqn:E; [by rewrite E|].
    destruct (isCreator p); [|by rewrite E].
    cbn [players pool currentTurn with_creator with_players].
    by rewrite length_alter. }
  destruct (players r2) eqn:E2; intros [= <- <-].
  - eapply agrees_delete; [eassumption | reflexivity | tally_other].
  - clearbody r2. simpl in Hlen.
    eapply agrees_insert;
      [eassumption | reflexivity | split | tally_here | tally_other].
    + case_bool_decide; fields; rewrite E2; simpl; lia.
    + case_bool_decide; fields; lia.
    + case_bool_decide; fields; lia.
Qed.

Lemma handle_agrees w sid e q w' out L :
  agrees w L → handle w sid e q = Done w' out →
  agrees w' (λ rc, tally rc (L rc) out).
Proof.
  intros HI. destruct q; simpl.
  - handler_cases; try keep_registry.
    eapply agrees_insert; [eassumption | reflexivity | | | tally_other].
    + split; simpl; lia.
    + unfold tally; simpl. by rewrite bool_decide_true.
  - handler_cases; try keep_registry. put_room HI; done.
  - handler_cases; try keep_registry. found_players. put_room HI; [turn_below|done..].
  - handler_cases; try keep_registry. found_players. put_room HI; [turn_below|lia..].
  - handler_cases; try keep_registry. all: found_players.
    all: put_room HI; turn_below.
  - handler_cases; try keep_registry. found_players. put_room HI; turn_below.
  - handler_cases; try keep_registry. found_players. put_room HI; turn_below.
  - handler_cases; try keep_registry. all: found_players. all: put_room HI; turn_below.
    all: assert (n ≠ n0) by (intros ->; congruence).
    all: rewrite length_delete by eauto.
    all: repeat match goal with
         | H : context [length (players (addToGameLog _ _ _))] |- _ =>
             revert H; fields; rewrite length_delete by eauto; intros H
         end.
    all: try lia.
  - handler_cases; try keep_registry. found_players. put_room HI; turn_below.
  - unfold leaveRoom. repeat case_match; intros; simplify_eq; try keep_registry.
    found_players.
    eapply agrees_same; [eapply depart_agrees; eauto | reflexivity | done].
  - unfold disconnect. intros; simplify_eq. keep_registry.
  - unfold disconnectTimeout.
    repeat case_match; intros; simplify_eq; try keep_registry.
    found_players. eapply depart_agrees; eauto.
Qed.

Lemma tally_app rc acc out1 out2 :
  tally rc acc (out1 ++ out2) = tally rc (tally rc acc out1) out2.
Proof. apply foldl_app. Qed.

Lemma run_agrees (cs : list call) (w w' : world) (out : list emission)
    (L : string → Z) :
  agrees w L → run w cs = Some (w', out) →
  agrees w' (λ rc, tally rc (L rc) out).
Proof.
  revert w out L. induction cs as [|[[sid e] q] cs IH]; intros w out L HI.
  - intros [= <- <-]. done.
  - simpl. destruct (handle w sid e q) as [w1 out1|] eqn:Hh; [|done].
    destruct (run w1 cs) as [[w2 out2]|] eqn:Hrun; [|done].
    intros [= <- <-].
    eapply agrees_same;
      [eapply IH; [eapply handle_agrees; eauto | eauto] | done |].
    intros c. simpl. by rewrite tally_app.
Qed.

Lemma start_agrees : agrees start (λ _, 0).
Proof. intros rc r. unfold start. simpl. by rewrite lookup_empty. Qed.

(** Rooms of a reachable registry have their turn in range: no handler
    call throws on them. *)
Lemma reachable_roomOk (cs : list call) (w : world) (out : list emission)
    (rc : string) (r : room) :
  run start cs = Some (w, out) → rooms w !! rc = Some r → roomOk r.
Proof.
  intros Hrun Hr.
  by destruct (run_agrees _ _ _ _ _ start_agrees Hrun rc r Hr).
Qed.

(** No call throws on such a registry, and so every sequence of calls
    runs to its end. *)
Lemma handle_returns (w : world) (sid : string) (e : env) (q : request)
    (L : string → Z) :
  agrees w L → ∃ w' out, handle w sid e q = Done w' out.
Proof.
  intros HI. destruct q; simpl; handler_cases; eauto.
  exfalso. known_room HI.
  apply lookup_lt_is_Some in Hturn as [? ?]. congruence.
Qed.

Lemma run_returns (cs : list call) (w : world) (L : string → Z) :
  agrees w L → ∃ w' out, run w cs = Some (w', out).
Proof.
  revert w L. induction cs as [|[[sid e] q] cs IH]; intros w L HI; simpl.
  - eauto.
  - destruct (handle_returns w sid e q L HI) as (w1 & out1 & Hh). rewrite Hh.
    destruct (IH w1 _ (handle_agrees _ _ _ _ _ _ _ HI Hh)) as (w2 & out2 & ->).
    eauto.
Qed.

Lemma run_from_start (cs : list call) :
  run start cs = Some (worldAfter cs, eventsAfter cs).
Proof.
  unfold worldAfter, eventsAfter.
  destruct (run_returns cs start _ start_agrees) as (w & out & ->). done.
Qed.

(** ** The pool and the calls *)










(** The calls that the ledger counts are the successful ones of the
    specification: a counted call meets the precondition of its
    operation, and a bid, a reset or a declaration of a winner that
    meets its precondition is counted. *)
Lemma poolEventOf_successful (w : world) (sid : string) (e : env)
    (q : request) :
  stateMachineOp q = true → is_Some (poolEventOf w sid e q) →
  precondition w sid q.
Proof.
  destruct q as [| | |[a|]| | | | | | | |]; try done; simpl; intros _;
    try (by intros [? ?]).
  all: destruct (requester w sid) as [[[[rc r] i] p]|] eqn:Hq; simpl;
    [|by intros [? ?]].
  - destruct (players r !! currentTurn r) as [current|] eqn:Hc; simpl;
      [|by intros [? ?]].
    destruct (bool_decide _) eqn:H; simpl; [|by intros [? ?]].
    apply bool_decide_eq_true in H as (? & ? & ?). intros _.
    by exists rc, r, i, p, current, a.
  - destruct (bool_decide _) eqn:H; simpl; [|by intros [? ?]].
    apply bool_decide_eq_true in H as [? ?].
    destruct (packLeavesOne i r); [|by intros [? ?]].
    intros _. by exists rc, r, i, p.
  - destruct (isCreator p) eqn:Hc; [|by intros [? ?]]. intros _.
    by exists rc, r, i, p.
  - destruct (bool_decide _) eqn:H; simpl; [|by intros [? ?]].
    apply bool_decide_eq_true in H as (? & ? & ?). intros _.
    by exists rc, r, i, p.
Qed.

Lemma precondition_counted (w : world) (sid : string) (e : env) :
  (∀ a, precondition w sid (PlaceBid a) →
     ∃ rc amount,
       a = Some amount
       ∧ poolEventOf w sid e (PlaceBid a) = Some (Bid rc amount))
  ∧ (precondition w sid ResetPool →
       ∃ rc, poolEventOf w sid e ResetPool = Some (Restarted rc))
  ∧ (∀ x, precondition w sid (DeclareWinner x) →
       ∃ rc, poolEventOf w sid e (DeclareWinner x) = Some (Settled rc)).
Proof.
  split_and!.
  - intros a (rc & r & i & p & current & amount & Hq & Hc & Hid & -> & ? & ?).
    exists rc, amount. split; [done|]. simpl. rewrite Hq. simpl.
    rewrite Hc. simpl. by rewrite bool_decide_true.
  - intros (rc & r & i & p & Hq & Hc). exists rc. simpl. rewrite Hq. simpl.
    by rewrite Hc.
  - intros x (rc & r & i & p & Hq & Hc & Hp & Hw). exists rc. simpl.
    rewrite Hq. simpl. by rewrite bool_decide_true.
Qed.




(** ** Failed operations *)

Lemma requester_Some w sid rc pid r i p :
  bound (session w sid) = Some (rc, pid) →
  rooms w !! rc = Some r →
  findPlayer (Some pid) (players r) = Some (i, p) →
  requester w sid = Some (rc, r, i, p).
Proof.
  intros Hb Hr Hf. unfold requester. rewrite Hb. simpl. rewrite Hr. simpl.
  by rewrite Hf.
Qed.

Lemma existsb_false_Forall {A} (f : A → bool) (l : list A) :
  existsb f l = false → Forall (λ x, f x = false) l.
Proof.
  induction l as [|x l IH]; simpl; [done|].
  intros [? ?]%orb_false_iff. constructor; auto.
Qed.

Ltac reject :=
  eexists _, _; split_and!; [reflexivity | exact I | reflexivity].

Ltac accept Hnot :=
  exfalso; apply Hnot; bool_hyps;
  repeat match goal with
  | H : ¬ (_ ≠ _) |- _ => apply dec_stable in H
  end;
  subst;
  first
    [ solve [ repeat eexists;
              [eapply requester_Some; eassumption | ..]; eauto; lia ]
    | repeat eexists; eauto; try lia ].

Lemma violated_rejected w sid e q :
  (∀ rc r, rooms w !! rc = Some r → roomOk r) →
  stateMachineOp q = true → ¬ precondition w sid q →
  rejected w sid q (handle w sid e q).
Proof.
  intros Hok Hop Hnot. destruct q; try done; simpl in *.
  - unfold rejoinRoom, rejoinFailed. repeat case_match; simplify_eq; try reject.
    accept Hnot.
  - unfold joinRoom, fail. repeat case_match; simplify_eq; try reject.
    accept Hnot.
    eapply Forall_impl; [by apply existsb_false_Forall|].
    simpl. intros p Hp. by apply bool_decide_eq_false in Hp.
  - unfold placeBid, fail. repeat case_match; simplify_eq; try reject.
    + exfalso. apply Hnot. bool_hyps.
      pose proof (findPlayer_lookup _ _ _ _ H2) as [_ [= Hid]].
      exists s, r, n, p1, p2, z.
      split_and!; eauto using requester_Some; try lia.
      apply dec_stable in H5. congruence.
    + exfalso. destruct (Hok _ _ H1) as [Hturn _].
      apply lookup_lt_is_Some in Hturn as [? ?]. congruence.
  - unfold packCards, fail. repeat case_match; simplify_eq; try reject.
    all: accept Hnot.
  - unfold resetPool, fail. repeat case_match; simplify_eq; try reject.
    accept Hnot.
  - unfold declareWinner, fail. repeat case_match; simplify_eq; try reject.
    accept Hnot.
  - unfold removePlayer, fail. repeat case_match; simplify_eq; try reject.
    all: accept Hnot.
  - unfold changeTurn, fail. repeat case_match; simplify_eq; try reject.
    accept Hnot.
Qed.

Lemma failure_changes_nothing w sid e q w' out d m :
  handle w sid e q = Done w' out → (d, m) ∈ out → isFailure m → w' = w.
Proof.
  destruct q; simpl; handler_cases;
    repeat match goal with
    | H : _ ∈ _ :: _ |- _ => apply elem_of_cons in H as [H|H]
    | H : _ ∈ [] |- _ => by apply elem_of_nil in H
    | H : _ ∈ (_ ++ _)%list |- _ => simpl in H
    end;
    simplify_eq; done.
Qed.

(** C5: for each of the eight operations, called on a reachable state,
    a violated precondition makes the handler report one classified
    failure to the requester and return the state it was given; and a
    call that reports a failure to anyone has left the whole state, the
    registry with every room in it, as it was. *)
Theorem C5_failed_operation_changes_nothing (cs : list call) (w : world)
    (out0 : list emission) (sid : string) (e : env) (q : request) :
  run start cs = Some (w, out0) →
  stateMachineOp q = true →
  (¬ precondition w sid q → rejected w sid q (handle w sid e q))
  ∧ (∀ w' out d m,
       handle w sid e q = Done w' out → (d, m) ∈ out → isFailure m →
       w' = w).
Proof.
  intros Hrun Hop. split.
  - apply violated_rejected; [|done].
    intros rc r. by eapply reachable_roomOk.
  - intros w' out d m. apply failure_changes_nothing.
Qed.

(** B bids while it is A's turn. *)
Lemma C5_failed_operation_changes_nothing_witness :
  rejected (worldAfter three) "sB" (PlaceBid (Some 100))
    (handle (worldAfter three) "sB" (at_ 4) (PlaceBid (Some 100))).
Proof.
  refine (proj1 (C5_failed_operation_changes_nothing three (worldAfter three)
                   (eventsAfter three) "sB" (at_ 4) (PlaceBid (Some 100))
                   _ _) _).
  - vm_compute. reflexivity.
  - reflexivity.
  - intros (rc & r & i & p & current & amount & Hreq & Hcur & Hid & _).
    vm_compute in Hreq. injection Hreq as <- <- <- <-.
    vm_compute in Hcur. injection Hcur as <-.
    vm_compute in Hid. discriminate Hid.
Defined.

(** ** Declaring a winner *)

Lemma requester_inv w sid rc r i p :
  requester w sid = Some (rc, r, i, p) →
  ∃ pid, bound (session w sid) = Some (rc, pid)
         ∧ rooms w !! rc = Some r
         ∧ findPlayer (Some pid) (players r) = Some (i, p).
Proof.
  unfold requester. intros H.
  destruct (bound (session w sid)) as [[rc' pid]|]; simpl in H; [|done].
  destruct (rooms w !! rc') as [r'|] eqn:Hr; simpl in H; [|done].
  destruct (findPlayer (Some pid) (players r')) as [[i' p']|] eqn:Hf;
    simpl in H; [|done].
  injection H as -> -> -> ->. eauto.
Qed.

(** C7, counterexample: the owner of a room whose pool is 0 names a
    winner that is not in the room; the failure reported is the one for
    the absent winner, not the one for the empty pool. *)
Lemma C7_absent_winner_reported_first :
  ownerOf (worldAfter three) "sA" "1234"
    (roomAfter "1234" three)
  ∧ (pool <$> rooms (worldAfter three) !! "1234") = Some 0
  ∧ handle (worldAfter three) "sA" (at_ 4) (DeclareWinner (Some "nobody"))
    = Done (worldAfter three) [(ToSocket "sA", error "Winner not found")]
  ∧ classify (DeclareWinner (Some "nobody")) (error "Winner not found")
    = Some NotFound
  ∧ classify (DeclareWinner (Some "nobody")) (error "Winner not found")
    ≠ Some EmptyPool.
Proof.
  split_and!; [| by vm_compute .. ].
  eexists _, _. split; by vm_compute.
Qed.

(** C7, amended: when the room owner declares a winner, the call fails
    with NotFound whenever the winner id matches no participant, and
    fails with EmptyPool whenever the winner id matches a participant
    and the pool is not positive; neither failure changes the state. *)
Theorem C7_declareWinner_failures (w : world) (sid : string) (e : env)
    (x : option string) (rc : string) (r : room) :
  ownerOf w sid rc r →
  (findPlayer x (players r) = None →
     ∃ m, declareWinner w sid e x = Done w [(ToSocket sid, m)]
          ∧ classify (DeclareWinner x) m = Some NotFound)
  ∧ (is_Some (findPlayer x (players r)) → pool r ≤ 0 →
     ∃ m, declareWinner w sid e x = Done w [(ToSocket sid, m)]
          ∧ classify (DeclareWinner x) m = Some EmptyPool).
Proof.
  intros (i & p & (pid & Hb & Hr & Hf)%requester_inv & Hc).
  unfold declareWinner. rewrite Hb, Hr, Hf, Hc. simpl negb. cbv iota.
  split.
  - intros ->. by eexists.
  - intros [[j winner] ->] Hpool.
    rewrite bool_decide_true by done. by eexists.
Qed.

(** The owner names a winner that is not in the room. *)
Lemma C7_declareWinner_failures_witness :
  ∃ m, declareWinner (worldAfter three) "sA" (at_ 4) (Some "nobody")
       = Done (worldAfter three) [(ToSocket "sA", m)]
       ∧ classify (DeclareWinner (Some "nobody")) m = Some NotFound.
Proof.
  refine (proj1 (C7_declareWinner_failures (worldAfter three) "sA" (at_ 4)
                   (Some "nobody") "1234"
                   (roomAfter "1234" three)
                   _) _).
  - eexists _, _. split; by vm_compute.
  - by vm_compute.
Defined.

(** ** Where the turn advance is called *)

(** An accepted bid debits the bidder, credits the pool, counts the
    bid, and then advances the turn. *)
Lemma placeBid_advances (w : world) (sid : string) (e : env)
    (rc : string) (r : room) (i : nat) (p current : player) (amount : Z) :
  requester w sid = Some (rc, r, i, p) →
  players r !! currentTurn r = Some current → id current = id p →
  0 < amount → amount ≤ balance p →
  ∃ r0,
    placeBid w sid e (Some amount)
    = Done (with_rooms (<[rc := moveToNextActivePlayer r0]> (rooms w)) w)
        [(ToRoom rc, bidPlaced (name p) amount (moveToNextActivePlayer r0));
         (ToRoom rc, roomUpdate (moveToNextActivePlayer r0))]
    ∧ players r0
      = alter (λ q, with_balance (balance q - amount) q) i (players r)
    ∧ pool r0 = pool r + amount
    ∧ totalBids r0 = totalBids r + 1
    ∧ currentTurn r0 = currentTurn r.
Proof.
  intros (pid & Hb & Hr & Hf)%requester_inv Hcur Hid Hpos Hbal.
  destruct (findPlayer_lookup _ _ _ _ Hf) as [_ [= Hp]].
  unfold placeBid. rewrite Hb, Hr, Hf, Hcur.
  rewrite (bool_decide_false (id current ≠ pid)) by (intros ?; congruence).
  rewrite (bool_decide_false (amount = 0)) by lia.
  rewrite (bool_decide_false (amount ≤ 0)) by lia.
  rewrite (bool_decide_false (balance p < amount)) by lia.
  cbn [orb]. eexists. split; [reflexivity|]. done.
Qed.

(** An accepted pack that leaves more than one participant active, or
    none, packs the player, advances the turn and settles nothing. *)
Lemma packCards_advances (w : world) (sid : string) (e : env)
    (rc : string) (r : room) (i : nat) (p : player) :
  requester w sid = Some (rc, r, i, p) →
  packed p = false → currentTurn r = i →
  length (filter (λ q, packed q = false) (players (afterPack e i p r))) ≠ 1%nat →
  packCards w sid e
  = Done (with_rooms (<[rc := ensureActiveTurn (afterPack e i p r)]> (rooms w)) w)
      [(ToRoom rc, playerPacked (name p) (afterPack e i p r));
       (ToRoom rc, roomUpdate (ensureActiveTurn (afterPack e i p r)))].
Proof.
  intros (pid & Hb & Hr & Hf)%requester_inv Hp Hturn Hlen.
  unfold packCards. rewrite Hb, Hr, Hf, Hp.
  rewrite bool_decide_false by (intros ?; congruence).
  fold (afterPack e i p r).
  destruct (filter _ (players (afterPack e i p r))) as [|q0 [|q1 qs]];
    simpl in Hlen; done.
Qed.

(** ** Settlement *)

Lemma findPlayer_alter (x : option string) (f : player → player) (j : nat)
    (ps : list player) :
  (∀ p, id (f p) = id p) →
  fst <$> findPlayer x (alter f j ps) = fst <$> findPlayer x ps.
Proof.
  intros Hf. unfold findPlayer. revert j.
  induction ps as [|p ps IH]; intros [|j]; simpl; try done.
  - rewrite Hf. by case_decide.
  - case_decide; [done|].
    specialize (IH j). change (list_alter f j ps) with (alter f j ps).
    destruct (list_find _ (alter f j ps)) as [[? ?]|],
             (list_find _ ps) as [[? ?]|]; simpl in *; congruence.
Qed.

Lemma fmap_id_alter (f : player → player) (j : nat) (ps : list player) :
  (∀ p, id (f p) = id p) → id <$> alter f j ps = id <$> ps.
Proof.
  intros Hf. revert j. induction ps as [|p ps IH]; intros [|j]; simpl;
    try done.
  - by rewrite Hf.
  - f_equal. apply IH.
Qed.

Lemma findPlayer_unique (ps : list player) (j : nat) (p : player) :
  NoDup (id <$> ps) → ps !! j = Some p →
  findPlayer (Some (id p)) ps = Some (j, p).
Proof.
  intros Hnd Hj. apply list_find_Some. split_and!; [done..|].
  intros k y Hk Hlt [= Hid].
  assert (k = j); [|lia].
  eapply (NoDup_lookup (id <$> ps)); [done | |].
  - by rewrite list_lookup_fmap, Hk.
  - rewrite list_lookup_fmap, Hj. simpl. by rewrite Hid.
Qed.

Lemma packedAt_unpacked (ps : list player) (k : nat) :
  packedAt (with_packed false <$> ps) k = false.
Proof.
  unfold packedAt. rewrite list_lookup_fmap. by destruct (ps !! k).
Qed.

Lemma ensureActiveTurn_unpacked (r : room) :
  packedAt (players r) (currentTurn r) = false → ensureActiveTurn r = r.
Proof.
  intros H. unfold ensureActiveTurn. destruct (players r); [done|].
  by rewrite H.
Qed.

Lemma declareWinner_settles w sid e x rc r i p j winner :
  requester w sid = Some (rc, r, i, p) → isCreator p = true →
  findPlayer x (players r) = Some (j, winner) → 0 < pool r →
  ∃ r' out,
    declareWinner w sid e x = Done (with_rooms (<[rc := r']> (rooms w)) w) out
    ∧ sameButLog r' (settlement j r).
Proof.
  intros (pid & Hb & Hr & Hf)%requester_inv Hc Hw Hpool.
  unfold declareWinner. rewrite Hb, Hr, Hf, Hc, Hw. simpl negb. cbv iota.
  rewrite bool_decide_false by lia.
  eexists _, _. split; [reflexivity|].
  unfold sameButLog, settlement. fields.
  rewrite findPlayer_alter by done.
  destruct (findPlayer_lookup _ _ _ _ Hw) as [_ <-]. rewrite Hw. simpl.
  reflexivity.
Qed.

Lemma packCards_settles w sid e rc r i p j winner :
  requester w sid = Some (rc, r, i, p) →
  packed p = false → currentTurn r = i → NoDup (id <$> players r) →
  filter (λ q, packed q = false) (players (afterPack e i p r)) = [winner] →
  players (afterPack e i p r) !! j = Some winner →
  ∃ r' out,
    packCards w sid e = Done (with_rooms (<[rc := r']> (rooms w)) w) out
    ∧ sameButLog r' (settlement j (afterPack e i p r)).
Proof.
  intros (pid & Hb & Hr & Hf)%requester_inv Hp Hturn Hnd Hone Hj.
  assert (NoDup (id <$> players (afterPack e i p r))) as Hnd'.
  { unfold afterPack. fields. by rewrite fmap_id_alter. }
  assert (list_find (λ q, packed q = false) (players (afterPack e i p r))
          = Some (j, winner)) as Hfind.
  { assert (winner ∈ filter (λ q, packed q = false)
                       (players (afterPack e i p r))) as Hin
      by (rewrite Hone; apply list_elem_of_singleton; done).
    apply list_elem_of_filter in Hin as [Hact Hin].
    destruct (list_find_elem_of (λ q, packed q = false) _ _ Hin Hact)
      as [[j' w'] Hfind].
    pose proof Hfind as (Hj' & Hact' & _)%list_find_Some.
    assert (w' = winner) as ->.
    { assert (w' ∈ filter (λ q, packed q = false)
                     (players (afterPack e i p r))) as Hin'.
      { apply list_elem_of_filter. split; [done|].
        by eapply list_elem_of_lookup_2. }
      rewrite Hone in Hin'. by apply list_elem_of_singleton in Hin'. }
    assert (j' = j) as ->; [|done].
    eapply (NoDup_lookup (id <$> players (afterPack e i p r))); [done | |].
    - by rewrite list_lookup_fmap, Hj'.
    - by rewrite list_lookup_fmap, Hj. }
  unfold packCards. rewrite Hb, Hr, Hf, Hp.
  rewrite bool_decide_false by (intros ?; congruence).
  fold (afterPack e i p r). rewrite Hone, Hfind.
  eexists _, _. split; [reflexivity|].
  rewrite ensureActiveTurn_unpacked by apply packedAt_unpacked.
  unfold sameButLog, settlement. fields.
  rewrite findPlayer_alter by done.
  rewrite (findPlayer_unique _ _ _ Hnd' Hj). simpl.
  reflexivity.
Qed.

Lemma settlement_effects (j : nat) (r : room) (winner : player) :
  players r !! j = Some winner →
  pool (settlement j r) = 0
  ∧ round (settlement j r) = round r + 1
  ∧ totalBids (settlement j r) = 0
  ∧ Forall (λ q, packed q = false) (players (settlement j r))
  ∧ currentTurn (settlement j r) = j
  ∧ (balance <$> players (settlement j r) !! j)
    = Some (balance winner + pool r).
Proof.
  intros Hj. split_and!; try done.
  - simpl. apply Forall_fmap, Forall_forall. done.
  - simpl. rewrite list_lookup_fmap, list_lookup_alter_eq, Hj. done.
Qed.

(** C8: a winner declared by the owner and the last participant left
    standing after a pack are settled by the same transformation of the
    room, the log entry apart: the winner at index [j] is credited the
    pool, the pool becomes 0, the round goes up by one, the count of
    bids becomes 0, nobody is packed any more, and the turn is [j].
    This holds when the ids of the participants are distinct and when
    the credited balance and the new round are safe integers. *)
Theorem C8_one_settlement (w : world) (sid : string) (e : env)
    (rc : string) (r : room) (i : nat) (p : player) :
  requester w sid = Some (rc, r, i, p) →
  (∀ x j winner,
     isCreator p = true →
     findPlayer x (players r) = Some (j, winner) → 0 < pool r →
     safeInteger (balance winner + pool r) = true →
     safeInteger (round r + 1) = true →
     ∃ r' out,
       declareWinner w sid e x
       = Done (with_rooms (<[rc := r']> (rooms w)) w) out
       ∧ sameButLog r' (settlement j r))
  ∧ (∀ j winner,
       packed p = false → currentTurn r = i → NoDup (id <$> players r) →
       filter (λ q, packed q = false) (players (afterPack e i p r))
       = [winner] →
       players (afterPack e i p r) !! j = Some winner →
       safeInteger (balance winner + pool r) = true →
       safeInteger (round r + 1) = true →
       ∃ r' out,
         packCards w sid e = Done (with_rooms (<[rc := r']> (rooms w)) w) out
         ∧ sameButLog r' (settlement j (afterPack e i p r)))
  ∧ (∀ j r0 winner,
       players r0 !! j = Some winner →
       pool (settlement j r0) = 0
       ∧ round (settlement j r0) = round r0 + 1
       ∧ totalBids (settlement j r0) = 0
       ∧ Forall (λ q, packed q = false) (players (settlement j r0))
       ∧ currentTurn (settlement j r0) = j
       ∧ (balance <$> players (settlement j r0) !! j)
         = Some (balance winner + pool r0)).
Proof.
  intros Hreq. split_and!.
  - intros x j winner ? ? ? _ _. by eapply declareWinner_settles.
  - intros j winner ? ? ? ? ? _ _. by eapply packCards_settles.
  - apply settlement_effects.
Qed.

(** With A and C still in and a pool of 150: the owner declares C the
    winner, or A packs and leaves C alone. *)
Lemma C8_one_settlement_witness :
  let w := worldAfter lastStanding in
  let r := roomAfter "1234" lastStanding in
  let a := playerAt 0 r in
  let c := playerAt 2 r in
  (∃ r' out,
     declareWinner w "sA" (at_ 7) (Some (id c))
     = Done (with_rooms (<[ "1234" := r']> (rooms w)) w) out
     ∧ sameButLog r' (settlement 2 r))
  ∧ (∃ r' out,
       packCards w "sA" (at_ 7)
       = Done (with_rooms (<[ "1234" := r']> (rooms w)) w) out
       ∧ sameButLog r' (settlement 2 (afterPack (at_ 7) 0 a r)))
  ∧ pool r = 150
  ∧ (balance <$> players (settlement 2 r) !! 2%nat) = Some 1100.
Proof.
  intros w r a c.
  destruct (C8_one_settlement w "sA" (at_ 7) "1234" r 0 a)
    as (Hdeclare & Hpack & Heffects); [by vm_compute|].
  split_and!.
  - apply (Hdeclare (Some (id c)) 2%nat c); by vm_compute.
  - apply (Hpack 2%nat c).
    + by vm_compute.
    + by vm_compute.
    + apply (bool_decide_unpack _). by vm_compute.
    + by vm_compute.
    + by vm_compute.
    + by vm_compute.
    + by vm_compute.
  - by vm_compute.
  - by vm_compute.
Defined.

(** C8, as it is worded: A and B have the same id; A has packed and B
    has bid 100 (which the handler takes from A, the first participant
    with that id). C packs and leaves B, at index 1, alone: B is
    credited the pool, and the turn goes to index 0, the first
    participant with the id of B. *)
Lemma C8_turn_not_on_winner :
  let w := worldAfter sharedId in
  let r := roomAfter "1234" sharedId in
  let c := playerAt 2 r in
  let r' := default noRoom (rooms (worldOf (packCards w "sC" (at_ 6))) !! "1234") in
  requester w "sC" = Some ("1234", r, 2%nat, c)
  ∧ packed c = false ∧ currentTurn r = 2%nat
  ∧ filter (λ q, packed q = false) (players (afterPack (at_ 6) 2 c r))
    = [playerAt 1 r]
  ∧ players (afterPack (at_ 6) 2 c r) !! 1%nat = Some (playerAt 1 r)
  ∧ pool r = 100
  ∧ balance <$> players r' = [900; 1100; 1000]
  ∧ currentTurn r' = 0%nat
  ∧ ¬ sameButLog r' (settlement 1 (afterPack (at_ 6) 2 c r)).
Proof. by vm_compute. Qed.

(** ** [parseInt] reads back what [ToString] writes *)












(** ** Creating a room *)

Lemma createRoom_accepted (w : world) (sid : string) (e : env)
    (creatorName : option string) (cname : string) (v : Js.value) :
  Js.truthy creatorName = Some cname → Js.blank cname = false →
  ∃ r p,
    createRoom w sid e creatorName v
    = Done (with_session sid
              (Socket (Some (generatePlayerId e)) (Some (generateRoomCode e)))
              (with_rooms (<[generateRoomCode e := r]> (rooms w)) w))
           [(ToSocket sid, roomCreated (generateRoomCode e) p r)]
    ∧ code r = generateRoomCode e
    ∧ players r = [p]
    ∧ isCreator p = true
    ∧ startingBalance r = Js.orDefault (Js.parseInt v) 1000
    ∧ balance p = Js.orDefault (Js.parseInt v) 1000.
Proof.
  intros Hn Hb. unfold createRoom. rewrite Hn, Hb.
  eexists _, _. split; [reflexivity|]. done.
Qed.

(** The code has four decimal digits, whatever the draw. *)
Lemma generateRoomCode_format (e : env) :
  0 ≤ random_code e < 9000 →
  String.length (generateRoomCode e) = 4%nat
  ∧ allDigits (generateRoomCode e) = true.
Proof.
  intros Hr. unfold generateRoomCode.
  assert (forallb
            (λ k : nat,
               let s := pretty (1000 + Z.of_nat k) in
               bool_decide (String.length s = 4%nat) && allDigits s)
            (seq 0 (Z.to_nat 9000)) = true) as Hall by (vm_compute; reflexivity).
  rewrite forallb_forall in Hall.
  assert (In (Z.to_nat (random_code e)) (seq 0 (Z.to_nat 9000))) as Hin
    by (apply in_seq; lia).
  specialize (Hall _ Hin). cbv zeta in Hall.
  rewrite Z2Nat.id in Hall by lia.
  apply andb_true_iff in Hall as [Hlen Hdig].
  split; [by apply bool_decide_eq_true in Hlen | done].
Qed.

(** C4, counterexample: room 1234 is live, with A, B and C in it; a
    fourth connection creates a room and the generator draws 1234
    again. The registry now holds, under 1234, the new room with Z
    alone. *)
Lemma C4_new_room_replaces_live_room :
  let w := worldAfter three in
  let e := at_ 9 in
  generateRoomCode e = "1234"
  ∧ ((λ r, name <$> players r) <$> rooms w !! "1234") = Some ["A"; "B"; "C"]
  ∧ ∃ w' out,
      createRoom w "sZ" e (Some "Z") (Js.Num 500) = Done w' out
      ∧ ((λ r, name <$> players r) <$> rooms w' !! "1234") = Some ["Z"].
Proof.
  split_and!; [by vm_compute..|].
  eexists _, _. split; [reflexivity|]. by vm_compute.
Qed.

(** C4, amended: a createRoom request whose owner name is accepted
    stores the new room under the code the generator draws, four
    decimal digits, without looking the code up: every room registered
    under another code is left as it was, and when the drawn code is
    not in use no room of the registry is replaced. *)
Theorem C4_createRoom_registry (w : world) (sid : string) (e : env)
    (creatorName : option string) (cname : string) (v : Js.value) :
  Js.truthy creatorName = Some cname → Js.blank cname = false →
  ∃ w' out r,
    createRoom w sid e creatorName v = Done w' out
    ∧ code r = generateRoomCode e
    ∧ rooms w' = <[generateRoomCode e := r]> (rooms w)
    ∧ (∀ c, c ≠ generateRoomCode e → rooms w' !! c = rooms w !! c)
    ∧ (rooms w !! generateRoomCode e = None →
       ∀ c r0, rooms w !! c = Some r0 → rooms w' !! c = Some r0)
    ∧ (0 ≤ random_code e < 9000 →
       String.length (code r) = 4%nat ∧ allDigits (code r) = true).
Proof.
  intros Hn Hb.
  destruct (createRoom_accepted w sid e creatorName cname v Hn Hb)
    as (r & p & -> & Hcode & _).
  eexists _, _, r. split; [reflexivity|]. simpl. split_and!; try done.
  - intros c Hc. by rewrite lookup_insert_ne.
  - intros Hfree c r0 Hc. rewrite lookup_insert_ne; [done|].
    intros <-. congruence.
  - rewrite Hcode. apply generateRoomCode_format.
Qed.

(** The same request as in the counterexample, read with the amended
    claim. *)
Lemma C4_createRoom_registry_witness :
  ∃ w' out r,
    createRoom (worldAfter three) "sZ" (at_ 9) (Some "Z") (Js.Num 500)
    = Done w' out
    ∧ code r = "1234"
    ∧ rooms w' = <["1234" := r]> (rooms (worldAfter three)).
Proof.
  destruct (C4_createRoom_registry (worldAfter three) "sZ" (at_ 9) (Some "Z")
              "Z" (Js.Num 500))
    as (w' & out & r & H1 & H2 & H3 & _); [reflexivity | reflexivity |].
  exists w', out, r. auto.
Defined.




(** ** Rejoining *)

(** C10: a rejoinRoom request whose player name is absent or empty
    fails and changes nothing, whatever the room code and participant
    id are, also when they identify a participant of a live room. *)
Theorem C10_rejoin_needs_name (w : world) (sid : string) (e : env)
    (rcode pid pname : option string) :
  pname = None ∨ pname = Some "" →
  rejoinRoom w sid e rcode pid pname
  = Done w [(ToSocket sid, roomRejoined false (Some "Invalid rejoin data") None)].
Proof.
  intros [-> | ->]; unfold rejoinRoom, rejoinFailed; simpl;
    by destruct (Js.truthy rcode), (Js.truthy pid).
Qed.

(** B, a participant of the live room 1234, rejoins without a name. *)
Lemma C10_rejoin_needs_name_witness :
  is_Some (rooms (worldAfter three) !! "1234"
           ≫= λ r, findPlayer (Some "player_2_k3j9x0q2a") (players r))
  ∧ rejoinRoom (worldAfter three) "sB2" (at_ 4) (Some "1234")
      (Some "player_2_k3j9x0q2a") None
    = Done (worldAfter three)
        [(ToSocket "sB2", roomRejoined false (Some "Invalid rejoin data") None)].
Proof.
  split.
  - apply (bool_decide_unpack _). by vm_compute.
  - apply (C10_rejoin_needs_name (worldAfter three) "sB2" (at_ 4)
             (Some "1234") (Some "player_2_k3j9x0q2a") None).
    left. reflexivity.
Defined.

(** * Further properties of the handlers *)

(** ** The log *)

Lemma addToGameLog_code e m r : code (addToGameLog e m r) = code r.
Proof. done. Qed.
Lemma addToGameLog_creator e m r : creator (addToGameLog e m r) = creator r.
Proof. done. Qed.

Lemma last_drop_lt {A} (l : list A) (n : nat) :
  (n < length l)%nat → last (drop n l) = last l.
Proof.
  intros Hn. rewrite !last_lookup, lookup_drop, length_drop. f_equal. lia.
Qed.

(** X1: The log holds the 50 newest entries: the new entry is the last
    one, what is kept is the end of the old log with the new entry, and
    an entry is dropped only when the log is full. *)
Theorem addToGameLog_keeps_newest (e : env) (m : string) (r : room) :
  let entry := "[" +:+ clock_text e +:+ "] " +:+ m in
  let l' := gameLog (addToGameLog e m r) in
  (length l' ≤ 50)%nat
  ∧ last l' = Some entry
  ∧ l' `suffix_of` (gameLog r ++ [entry])%list
  ∧ ((length (gameLog r) < 50)%nat → l' = (gameLog r ++ [entry])%list)
  ∧ ((50 ≤ length (gameLog r))%nat → length l' = 50%nat).
Proof.
  intros entry l'. subst l'. unfold addToGameLog.
  cbn [gameLog with_gameLog]. fold entry.
  set (l := (gameLog r ++ [entry])%list).
  assert (length l = S (length (gameLog r))) as Hl
    by (subst l; rewrite length_app; simpl; lia).
  case_bool_decide as Hlong.
  - split_and!.
    + rewrite length_drop. lia.
    + rewrite last_drop_lt by lia. subst l. by rewrite last_snoc.
    + apply suffix_drop.
    + lia.
    + intros _. rewrite length_drop. lia.
  - split_and!; [lia | subst l; by rewrite last_snoc | done | done | lia].
Qed.

(** ** Keeping the turn on an active player *)

Lemma ensureActiveTurn_scan (r : room) :
  (currentTurn r < length (players r))%nat →
  ∃ n : nat,
    (n ≤ length (players r))%nat
    ∧ currentTurn (ensureActiveTurn r)
      = ((currentTurn r + n) mod length (players r))%nat
    ∧ (∀ j, (j < n)%nat →
         packedAt (players r)
           ((currentTurn r + j) mod length (players r)) = true)
    ∧ ((n < length (players r))%nat →
         packedAt (players r) (currentTurn (ensureActiveTurn r)) = false)
    ∧ ((n = length (players r))%nat →
         Forall (λ p, packed p = true) (players r)).
Proof.
  intros Hlt. unfold ensureActiveTurn.
  destruct (players r) as [|p0 ps0] eqn:Hps; [simpl in Hlt; lia|].
  rewrite <- Hps in *. clear Hps p0 ps0.
  destruct (packedAt (players r) (currentTurn r)) eqn:Hcur.
  - destruct (skipPacked_steps (players r) (length (players r))
                (currentTurn r) 0%nat)
      as (n & Heq & Hn & Hall & Hstop); [done | lia | lia |].
    rewrite Heq. cbn [afterSkip currentTurn with_currentTurn]. simpl in Hn.
    assert ((n = length (players r))%nat →
            Forall (λ p, packed p = true) (players r)) as Hfull.
    { intros ->. apply Forall_lookup. intros i p Hi.
      destruct (circle_covers (players r) (currentTurn r) i)
        as (j & Hj & Hji); [done | by eapply lookup_lt_Some |].
      specialize (Hall j Hj). rewrite Hji in Hall.
      apply packedAt_true in Hall as (p' & Hp' & Hpk). congruence. }
    exists n. split_and!; try done.
    + case_bool_decide as Hge; [|done].
      assert (n = length (players r)) as Hnl by lia.
      by rewrite (firstActive_all_packed _ (Hfull Hnl)).
    + intros Hn'. rewrite bool_decide_false by lia. auto.
  - exists 0%nat. rewrite Nat.add_0_r, Nat.mod_small by done.
    split_and!; [lia | done | intros; lia | done | intros; lia].
Qed.

Lemma ensureActiveTurn_active (r : room) :
  (currentTurn r < length (players r))%nat →
  turnOnActive (ensureActiveTurn r).
Proof.
  intros Hlt.
  destruct (ensureActiveTurn_scan r Hlt) as (n & Hn & _ & _ & Hstop & Hfull).
  unfold turnOnActive. rewrite ensureActiveTurn_players. intros Hact.
  apply Hstop. destruct (decide (n = length (players r))) as [E|]; [|lia].
  apply Exists_exists in Hact as (p & Hp & Hpk).
  specialize (Hfull E). rewrite Forall_forall in Hfull.
  specialize (Hfull p Hp). congruence.
Qed.

(** X2: [ensureActiveTurn] moves the turn to the first player that has not
    packed, scanning circularly from the current turn itself: it does
    nothing when the turn is on such a player or when everybody has
    packed, its result is on an active player whenever there is one,
    and calling it again changes nothing. *)
Theorem ensureActiveTurn_repairs (r : room) :
  (currentTurn r < length (players r))%nat →
  turnOnActive (ensureActiveTurn r)
  ∧ (currentTurn (ensureActiveTurn r) < length (players r))%nat
  ∧ (turnOnActive r → ensureActiveTurn r = r)
  ∧ (Forall (λ p, packed p = true) (players r) → ensureActiveTurn r = r)
  ∧ ensureActiveTurn (ensureActiveTurn r) = ensureActiveTurn r.
Proof.
  intros Hlt.
  destruct (ensureActiveTurn_scan r Hlt) as (n & Hn & Hturn & Hall & Hstop & Hfull).
  pose proof (ensureActiveTurn_active r Hlt) as Hon.
  assert (∀ r0, packedAt (players r0) (currentTurn r0) = false →
                ensureActiveTurn r0 = r0) as Hnop
    by (intros r0; apply ensureActiveTurn_unpacked).
  assert (Forall (λ p, packed p = true) (players r) → ensureActiveTurn r = r)
    as Hpacked.
  { intros Hpk. rewrite ensureActiveTurn_eq, Hturn.
    assert (n = length (players r) ∨ n = 0%nat) as [-> | ->].
    { destruct (decide (n = length (players r))); [by left|].
      specialize (Hstop ltac:(lia)).
      assert (currentTurn (ensureActiveTurn r) < length (players r))%nat as Hin.
      { rewrite Hturn. apply Nat.mod_upper_bound. lia. }
      apply lookup_lt_is_Some in Hin as [p Hp].
      unfold packedAt in Hstop. rewrite Hp in Hstop.
      rewrite Forall_lookup in Hpk. specialize (Hpk _ _ Hp). congruence. }
    - replace (currentTurn r + length (players r))%nat
        with (currentTurn r + 1 * length (players r))%nat by lia.
      rewrite Nat.Div0.mod_add, Nat.mod_small by done. by destruct r.
    - rewrite Nat.add_0_r, Nat.mod_small by done. by destruct r. }
  split_and!; try done.
  - rewrite Hturn. apply Nat.mod_upper_bound. lia.
  - intros Hact.
    destruct (decide (Exists (λ p, packed p = false) (players r))) as [Hex|Hno].
    + apply Hnop. by apply Hact.
    + apply Hpacked. apply Forall_forall. intros p Hp.
      destruct (packed p) eqn:Hpk; [done|].
      destruct Hno. apply Exists_exists. eauto.
  - destruct (decide (Exists (λ p, packed p = false) (players r))) as [Hex|Hno].
    + apply Hnop. apply Hon. by rewrite ensureActiveTurn_players.
    + assert (Forall (λ p, packed p = true) (players r)) as Hpk.
      { apply Forall_forall. intros p Hp.
        destruct (packed p) eqn:Hpk; [done|].
        destruct Hno. apply Exists_exists. eauto. }
      by rewrite !(Hpacked Hpk).
Qed.

(** B has packed and the turn is on B: it goes to C. *)
Lemma ensureActiveTurn_repairs_witness :
  let r := with_currentTurn 1 threeWithOnePacked in
  currentTurn (ensureActiveTurn r) = 2%nat
  ∧ turnOnActive (ensureActiveTurn r)
  ∧ ensureActiveTurn (ensureActiveTurn r) = ensureActiveTurn r.
Proof.
  intros r.
  destruct (ensureActiveTurn_repairs r) as (Hon & _ & _ & _ & Hagain).
  - simpl. lia.
  - split_and!; [by vm_compute | exact Hon | exact Hagain].
Defined.


(** ** What every reachable room satisfies *)

Lemma moveToNextActivePlayer_code r : code (moveToNextActivePlayer r) = code r.
Proof. by rewrite moveToNextActivePlayer_eq. Qed.
Lemma moveToNextActivePlayer_creator r :
  creator (moveToNextActivePlayer r) = creator r.
Proof. by rewrite moveToNextActivePlayer_eq. Qed.
Lemma moveToNextActivePlayer_startingBalance r :
  startingBalance (moveToNextActivePlayer r) = startingBalance r.
Proof. by rewrite moveToNextActivePlayer_eq. Qed.
Lemma moveToNextActivePlayer_round r :
  round (moveToNextActivePlayer r) = round r.
Proof. by rewrite moveToNextActivePlayer_eq. Qed.
Lemma moveToNextActivePlayer_totalBids r :
  totalBids (moveToNextActivePlayer r) = totalBids r.
Proof. by rewrite moveToNextActivePlayer_eq. Qed.
Lemma moveToNextActivePlayer_gameLog r :
  gameLog (moveToNextActivePlayer r) = gameLog r.
Proof. by rewrite moveToNextActivePlayer_eq. Qed.
Lemma ensureActiveTurn_code r : code (ensureActiveTurn r) = code r.
Proof. by rewrite ensureActiveTurn_eq. Qed.
Lemma ensureActiveTurn_creator r : creator (ensureActiveTurn r) = creator r.
Proof. by rewrite ensureActiveTurn_eq. Qed.
Lemma ensureActiveTurn_startingBalance r :
  startingBalance (ensureActiveTurn r) = startingBalance r.
Proof. by rewrite ensureActiveTurn_eq. Qed.
Lemma ensureActiveTurn_round r : round (ensureActiveTurn r) = round r.
Proof. by rewrite ensureActiveTurn_eq. Qed.
Lemma ensureActiveTurn_totalBids r :
  totalBids (ensureActiveTurn r) = totalBids r.
Proof. by rewrite ensureActiveTurn_eq. Qed.
Lemma ensureActiveTurn_gameLog r : gameLog (ensureActiveTurn r) = gameLog r.
Proof. by rewrite ensureActiveTurn_eq. Qed.

Lemma addToGameLog_length e m r :
  (length (gameLog (addToGameLog e m r)) ≤ 50)%nat.
Proof.
  unfold addToGameLog. cbn [gameLog with_gameLog].
  case_bool_decide; [rewrite length_drop|]; lia.
Qed.

Lemma fmap_alter_same {A B} (g : A → B) (f : A → A) (i : nat) (l : list A) :
  (∀ x, g (f x) = g x) → g <$> alter f i l = g <$> l.
Proof.
  intros Hf. revert i. induction l as [|x l IH]; intros [|i]; simpl; try done.
  - by rewrite Hf.
  - f_equal. apply IH.
Qed.

Lemma fmap_fmap_same {A B} (g : A → B) (f : A → A) (l : list A) :
  (∀ x, g (f x) = g x) → g <$> (f <$> l) = g <$> l.
Proof.
  intros Hf. rewrite <- list_fmap_compose. apply list_fmap_ext.
  intros ? x _. apply Hf.
Qed.

Create Rewrite HintDb roomAll.
#[local] Hint Rewrite
  addToGameLog_players addToGameLog_pool addToGameLog_currentTurn
  addToGameLog_round addToGameLog_totalBids addToGameLog_startingBalance
  addToGameLog_code addToGameLog_creator
  moveToNextActivePlayer_players moveToNextActivePlayer_pool
  moveToNextActivePlayer_code moveToNextActivePlayer_creator
  moveToNextActivePlayer_startingBalance moveToNextActivePlayer_round
  moveToNextActivePlayer_totalBids moveToNextActivePlayer_gameLog
  ensureActiveTurn_players ensureActiveTurn_pool
  ensureActiveTurn_code ensureActiveTurn_creator
  ensureActiveTurn_startingBalance ensureActiveTurn_round
  ensureActiveTurn_totalBids ensureActiveTurn_gameLog : roomAll.

Ltac allFields :=
  repeat (progress (autorewrite with roomAll;
                    cbn [players pool currentTurn round totalBids gameLog
                         startingBalance code creator
                         with_players with_pool with_currentTurn with_round
                         with_totalBids with_gameLog with_creator])).

Lemma registry_same (w w' : world) :
  sound w → rooms w' = rooms w → registrySound w'.
Proof. intros HS Hw c r Hr. rewrite Hw in Hr. by apply HS. Qed.

Lemma registry_insert (w w' : world) (rc : string) (r' : room) :
  sound w → rooms w' = <[rc := r']> (rooms w) → roomSound rc r' →
  registrySound w'.
Proof.
  intros HS Hw Hr' c r. rewrite Hw. destruct (decide (rc = c)) as [<-|Hne].
  - rewrite lookup_insert_eq. by intros [= <-].
  - rewrite lookup_insert_ne by done. apply HS.
Qed.

Lemma registry_delete (w w' : world) (rc : string) :
  sound w → rooms w' = delete rc (rooms w) → registrySound w'.
Proof.
  intros HS Hw c r. rewrite Hw. destruct (decide (rc = c)) as [<-|Hne].
  - by rewrite lookup_delete_eq.
  - rewrite lookup_delete_ne by done. apply HS.
Qed.

Lemma lowerNames_roles (r : room) :
  lowerNames r = (λ x, Js.toLowerCase x.2) <$> roles r.
Proof. unfold lowerNames, roles. by rewrite <- list_fmap_compose. Qed.

(** A change that leaves the names and the creator flags alone. *)
Lemma roomSound_keep (rc : string) (r r' : room) :
  roomSound rc r →
  code r' = code r →
  (length (gameLog r') ≤ 50)%nat →
  1 ≤ round r' → 0 ≤ totalBids r' →
  roles r' = roles r → creator r' = creator r →
  solvent r' →
  roomSound rc r'.
Proof.
  intros (Hc & _ & _ & _ & Hnd & Hown & _) Hc' Hlog Hround Hbids Hroles Hcr Hsol.
  split_and!; try done.
  - congruence.
  - by rewrite lowerNames_roles, Hroles, <- lowerNames_roles.
  - unfold oneOwner. by rewrite Hroles, Hcr.
Qed.

Lemma ownerIn_app (c n : string) (l : list (bool * string)) :
  ownerIn c l → ownerIn c (l ++ [(false, n)]).
Proof.
  intros (i & Hi & Huniq). exists i. split.
  - by apply lookup_app_l_Some.
  - intros j m [Hj | [_ Hj]]%lookup_app_Some; [by eapply Huniq|].
    destruct (j - length l)%nat; simpl in Hj; by simplify_eq.
Qed.

Lemma ownerIn_delete_other (c n : string) (l : list (bool * string)) (k : nat) :
  ownerIn c l → l !! k = Some (false, n) → ownerIn c (delete k l).
Proof.
  intros (i & Hi & Huniq) Hk.
  assert (i ≠ k) by (intros ->; congruence).
  exists (if decide (i < k)%nat then i else (i - 1)%nat). split.
  - rewrite list_lookup_delete. repeat case_decide; try lia; [done|].
    by replace (S (i - 1)) with i by lia.
  - intros j m. rewrite list_lookup_delete. intros Hj.
    apply Huniq in Hj. repeat case_decide; lia.
Qed.

Lemma ownerIn_delete_owner (c n x : string) (b : bool)
    (l l' : list (bool * string)) (k : nat) :
  ownerIn c l → l !! k = Some (true, n) → delete k l = (b, x) :: l' →
  ownerIn x ((true, x) :: l').
Proof.
  intros (i & Hi & Huniq) Hk Hdel.
  assert (∀ j m, delete k l !! j = Some (true, m) → False) as Hnone.
  { intros j m. rewrite list_lookup_delete. intros Hj.
    apply Huniq in Hj. pose proof (Huniq _ _ Hk). case_decide; lia. }
  exists 0%nat. split; [done|].
  intros [|j] m Hj; [done|]. destruct (Hnone (S j) m). by rewrite Hdel.
Qed.

Lemma NoDup_delete {A} (l : list A) (k : nat) : NoDup l → NoDup (delete k l).
Proof. intros Hl. eapply sublist_NoDup; [done | apply sublist_delete]. Qed.

Ltac same_roles :=
  unfold roles; allFields;
  rewrite ?fmap_fmap_same, ?fmap_alter_same by done; done.

Ltac known_sound HS :=
  match goal with
  | H : rooms _ !! _ = Some _ |- _ =>
      let Hok := fresh "Hok" in
      let Hsound := fresh "Hsound" in
      destruct (HS _ _ H) as [Hok Hsound]
  end.

Lemma Forall_alter_all {A} (P : A → Prop) (f : A → A) (i : nat) (l : list A) :
  Forall P l → (∀ x, P x → P (f x)) → Forall P (alter f i l).
Proof. intros Hl Hf. apply Forall_alter; [done|]. intros x _. apply Hf. Qed.

Lemma Forall_fmap_all {A} (P : A → Prop) (f : A → A) (l : list A) :
  Forall P l → (∀ x, P x → P (f x)) → Forall P (f <$> l).
Proof.
  intros Hl Hf. apply Forall_fmap. eapply Forall_impl; [done|]. apply Hf.
Qed.

Ltac still_solvent :=
  repeat (first [apply Forall_fmap_all | apply Forall_alter_all];
          [| intros ? ?; simpl in *; lia]);
  try done.

Ltac keep_sound HS :=
  known_sound HS;
  match goal with
  | Hs : roomSound _ _, Ho : roomOk _ |- _ =>
      pose proof Hs as (_ & _ & Hround & Hbids & _ & _ & Hsolvent);
      pose proof Ho as [_ Hpool]
  end;
  eapply registry_insert; [done | reflexivity |];
  eapply roomSound_keep;
    [ eassumption
    | allFields; try done
    | allFields; try apply addToGameLog_length
    | allFields; try lia
    | allFields; try lia
    | try same_roles
    | allFields; try done
    | unfold solvent in *; allFields ].

(** Removing a player that is not the creator. *)
Lemma roomSound_without (rc : string) (r r' : room) (k : nat) (p : player) :
  roomSound rc r →
  players r !! k = Some p → isCreator p = false →
  code r' = code r →
  (length (gameLog r') ≤ 50)%nat →
  round r' = round r → totalBids r' = totalBids r →
  players r' = delete k (players r) →
  creator r' = creator r → startingBalance r' = startingBalance r →
  roomSound rc r'.
Proof.
  intros (Hc & _ & Hround & Hbids & Hnd & Hown & Hsol) Hk Hp
    Hc' Hlog Hround' Hbids' Hps Hcr Hsb.
  split_and!; try done; try congruence.
  - unfold lowerNames. rewrite Hps, list_fmap_delete. by apply NoDup_delete.
  - unfold oneOwner, roles in *. rewrite Hps, Hcr, list_fmap_delete.
    eapply ownerIn_delete_other; [done|].
    by rewrite list_lookup_fmap, Hk; simpl; rewrite Hp.
  - unfold solvent in *. rewrite Hps, Hsb. by apply Forall_delete.
Qed.

(** The creator goes and the first of the others takes over. *)
Lemma roomSound_owner_left (rc : string) (r r' : room) (k : nat)
    (p first : player) (rest : list player) :
  roomSound rc r →
  players r !! k = Some p → isCreator p = true →
  delete k (players r) = first :: rest →
  code r' = code r →
  (length (gameLog r') ≤ 50)%nat →
  round r' = round r → totalBids r' = totalBids r →
  players r' = with_isCreator true first :: rest →
  creator r' = name first → startingBalance r' = startingBalance r →
  roomSound rc r'.
Proof.
  intros (Hc & _ & Hround & Hbids & Hnd & Hown & Hsol) Hk Hp Hdel
    Hc' Hlog Hround' Hbids' Hps Hcr Hsb.
  split_and!; try done; try congruence.
  - unfold lowerNames in *. rewrite Hps.
    apply (NoDup_delete _ k) in Hnd.
    by rewrite <- list_fmap_delete, Hdel in Hnd.
  - unfold oneOwner, roles in *. rewrite Hps, Hcr. simpl.
    eapply (ownerIn_delete_owner _ (name p) _ (isCreator first) _ _ k);
      [done | |].
    + by rewrite list_lookup_fmap, Hk; simpl; rewrite Hp.
    + by rewrite <- list_fmap_delete, Hdel.
  - unfold solvent in *. rewrite Hps, Hsb.
    apply (Forall_delete _ _ k) in Hsol. rewrite Hdel in Hsol.
    inversion Hsol; subst. by constructor.
Qed.

Lemma depart_sound e rc i p suffix r w w' out :
  sound w → rooms w !! rc = Some r → players r !! i = Some p →
  depart e rc i p suffix r w = (w', out) →
  registrySound w'.
Proof.
  intros HS Hr Hp. destruct (HS _ _ Hr) as [Hok Hsound].
  unfold depart. allFields.
  destruct (delete i (players r)) as [|first rest] eqn:Hdel.
  - intros [= <- <-]. by eapply registry_delete.
  - destruct (isCreator p) eqn:Hcr; allFields; simpl alter;
      intros [= <- <-];
      (eapply registry_insert; [done | reflexivity |]).
    + eapply (roomSound_owner_left _ r _ i p first rest); try done;
        case_bool_decide; allFields; try done; apply addToGameLog_length.
    + eapply (roomSound_without _ r _ i p); try done;
        case_bool_decide; allFields; try done; apply addToGameLog_length.
Qed.

Lemma handle_roomSound w sid e q w' out :
  sound w → handle w sid e q = Done w' out → registrySound w'.
Proof.
  intros HS. destruct q; simpl.
  - handler_cases; try (by eapply registry_same).
    eapply registry_insert; [done | reflexivity |].
    split_and!; allFields; try done.
    + apply addToGameLog_length.
    + apply NoDup_singleton.
    + exists 0%nat. split; [done|]. by intros [|j] n.
    + unfold solvent. simpl. constructor; [simpl; lia | constructor].
  - handler_cases; try (by eapply registry_same). keep_sound HS.
    apply Forall_alter; [done|]. by intros [].
  - handler_cases; try (by eapply registry_same).
    known_sound HS.
    destruct Hsound as (Hc & Hlog & Hround & Hbids & Hnd & Hown & Hsol).
    eapply registry_insert; [done | reflexivity |].
    split_and!; allFields; try done.
    + apply addToGameLog_length.
    + unfold lowerNames. allFields. rewrite fmap_app.
      apply NoDup_app. split_and!; [done | | apply NoDup_singleton].
      intros x (p & -> & Hp)%list_elem_of_fmap Hin.
      apply list_elem_of_singleton in Hin. simpl in Hin.
      apply existsb_false_Forall in H4. rewrite Forall_forall in H4.
      specialize (H4 p Hp). simpl in H4.
      by apply bool_decide_eq_false in H4.
    + unfold oneOwner, roles in *. allFields. rewrite fmap_app. simpl.
      by apply ownerIn_app.
    + unfold solvent in *. allFields.
      apply Forall_app. split; [done|].
      constructor; [simpl; lia | constructor].
  - handler_cases; try (by eapply registry_same). keep_sound HS.
    apply Forall_alter; [done|]. intros x Hx _.
    apply findPlayer_lookup in H2 as [Hl _]. simplify_eq. simpl. lia.
  - handler_cases; try (by eapply registry_same). all: keep_sound HS.
    all: still_solvent.
  - handler_cases; try (by eapply registry_same). all: keep_sound HS.
    apply Forall_fmap, Forall_forall. intros x _. simpl. lia.
  - handler_cases; try (by eapply registry_same). all: keep_sound HS.
    all: still_solvent.
  - handler_cases; try (by eapply registry_same).
    all: known_sound HS; apply findPlayer_lookup in H5 as [Hl _].
    all: eapply registry_insert; [done | reflexivity |].
    all: eapply (roomSound_without _ r _ n0 p3); try done.
    all: allFields; apply addToGameLog_length.
  - handler_cases; try (by eapply registry_same). all: keep_sound HS.
    all: still_solvent.
  - unfold leaveRoom. repeat case_match; intros; simplify_eq;
      try (by eapply registry_same).
    match goal with
    | Hf : findPlayer _ _ = Some _ |- _ =>
        apply findPlayer_lookup in Hf as [Hl _]
    end.
    intros c r0 Hc. eapply depart_sound; eauto.
  - unfold disconnect. intros; simplify_eq. by eapply registry_same.
  - unfold disconnectTimeout.
    repeat case_match; intros; simplify_eq; try (by eapply registry_same).
    match goal with
    | Hf : findPlayer _ _ = Some _ |- _ =>
        apply findPlayer_lookup in Hf as [Hl _]
    end.
    eapply depart_sound; eauto.
Qed.

Lemma handle_sound w sid e q w' out :
  sound w → handle w sid e q = Done w' out → sound w'.
Proof.
  intros HS Hh rc r Hr. split.
  - assert (agrees w (λ c, from_option pool 0 (rooms w !! c))) as HA.
    { intros c r0 Hc. rewrite Hc. split; [by destruct (HS _ _ Hc) | done]. }
    by destruct (handle_agrees _ _ _ _ _ _ _ HA Hh rc r Hr).
  - by eapply handle_roomSound.
Qed.

Lemma run_sound (cs : list call) (w w' : world) (out : list emission) :
  sound w → run w cs = Some (w', out) → sound w'.
Proof.
  revert w out. induction cs as [|[[sid e] q] cs IH]; intros w out HS; simpl.
  - by intros [= <- <-].
  - destruct (handle w sid e q) as [w1 out1|] eqn:Hh; [|done].
    destruct (run w1 cs) as [[w2 out2]|] eqn:Hrun; [|done].
    intros [= <- <-]. eapply IH; [|done]. by eapply handle_sound.
Qed.

Lemma reachable_sound (cs : list call) : sound (worldAfter cs).
Proof.
  eapply run_sound; [|apply run_from_start].
  intros rc r. unfold start. simpl. by rewrite lookup_empty.
Qed.

(** X3: A room in the registry is stored under its own code, has at least
    one player and its turn index inside the list; its round is at
    least 1 and its count of bids is not negative. *)
Theorem registered_room_shape (cs : list call) (rc : string) (r : room) :
  rooms (worldAfter cs) !! rc = Some r →
  code r = rc
  ∧ players r ≠ []
  ∧ (currentTurn r < length (players r))%nat
  ∧ 1 ≤ round r
  ∧ 0 ≤ totalBids r.
Proof.
  intros Hr.
  destruct (reachable_sound cs rc r Hr)
    as [[Hturn _] (Hc & _ & Hround & Hbids & _)].
  split_and!; try done. intros E. rewrite E in Hturn. simpl in Hturn. lia.
Qed.

Lemma registered_room_shape_witness :
  code (roomAfter "1234" secondRound) = "1234"
  ∧ players (roomAfter "1234" secondRound) ≠ []
  ∧ (currentTurn (roomAfter "1234" secondRound)
     < length (players (roomAfter "1234" secondRound)))%nat
  ∧ 1 ≤ round (roomAfter "1234" secondRound)
  ∧ 0 ≤ totalBids (roomAfter "1234" secondRound).
Proof.
  apply (registered_room_shape secondRound "1234"). by vm_compute.
Defined.

(** X4: The log of a room never holds more than 50 entries. *)
Theorem registered_log_bounded (cs : list call) (rc : string) (r : room) :
  rooms (worldAfter cs) !! rc = Some r → (length (gameLog r) ≤ 50)%nat.
Proof.
  intros Hr. by destruct (reachable_sound cs rc r Hr) as [_ (_ & Hlog & _)].
Qed.

Lemma registered_log_bounded_witness :
  (length (gameLog (roomAfter "1234" secondRound)) ≤ 50)%nat.
Proof.
  apply (registered_log_bounded secondRound "1234"). by vm_compute.
Defined.

(** X5: No two players of a room have names that differ in case only. *)
Theorem registered_names_distinct (cs : list call) (rc : string) (r : room)
    (i j : nat) (p q : player) :
  rooms (worldAfter cs) !! rc = Some r →
  players r !! i = Some p → players r !! j = Some q →
  i ≠ j →
  Js.toLowerCase (name p) ≠ Js.toLowerCase (name q).
Proof.
  intros Hr Hi Hj Hne Heq. apply Hne.
  destruct (reachable_sound cs rc r Hr) as [_ (_ & _ & _ & _ & Hnd & _)].
  eapply (NoDup_lookup (lowerNames r)); [done | |].
  - unfold lowerNames. by rewrite list_lookup_fmap, Hi.
  - unfold lowerNames. rewrite list_lookup_fmap, Hj. simpl. by rewrite Heq.
Qed.

Lemma registered_names_distinct_witness :
  Js.toLowerCase (name (playerAt 0 (roomAfter "1234" secondRound)))
  ≠ Js.toLowerCase (name (playerAt 2 (roomAfter "1234" secondRound))).
Proof.
  apply (registered_names_distinct secondRound "1234"
           (roomAfter "1234" secondRound) 0 2); by vm_compute.
Defined.

(** X6: Exactly one player of a room is flagged as creator, and
    [room.creator] is that player's name. *)
Theorem registered_one_owner (cs : list call) (rc : string) (r : room) :
  rooms (worldAfter cs) !! rc = Some r →
  ∃ i p,
    players r !! i = Some p ∧ isCreator p = true ∧ name p = creator r
    ∧ ∀ j q, players r !! j = Some q → isCreator q = true → j = i.
Proof.
  intros Hr.
  destruct (reachable_sound cs rc r Hr)
    as [_ (_ & _ & _ & _ & _ & (i & Hi & Huniq) & _)].
  unfold roles in *. rewrite list_lookup_fmap in Hi.
  destruct (players r !! i) as [p|] eqn:Hp; [|done].
  simpl in Hi. injection Hi as Hc Hn.
  exists i, p. split_and!; try done.
  intros j q Hj Hq. apply (Huniq j (name q)).
  by rewrite list_lookup_fmap, Hj; simpl; rewrite Hq.
Qed.

Lemma registered_one_owner_witness :
  ∃ i p,
    players (roomAfter "1234" secondRound) !! i = Some p
    ∧ isCreator p = true
    ∧ name p = creator (roomAfter "1234" secondRound)
    ∧ ∀ j q, players (roomAfter "1234" secondRound) !! j = Some q →
        isCreator q = true → j = i.
Proof.
  apply (registered_one_owner secondRound "1234"). by vm_compute.
Defined.


(** X7: No balance is below zero, unless the room was created with a
    negative starting balance, and then none is below that. *)
Theorem registered_balances_floor (cs : list call) (rc : string) (r : room)
    (i : nat) (p : player) :
  rooms (worldAfter cs) !! rc = Some r →
  players r !! i = Some p →
  Z.min 0 (startingBalance r) ≤ balance p
  ∧ (0 ≤ startingBalance r → 0 ≤ balance p).
Proof.
  intros Hr Hi.
  destruct (reachable_sound cs rc r Hr) as [_ (_ & _ & _ & _ & _ & _ & Hsol)].
  unfold solvent in Hsol. rewrite Forall_lookup in Hsol.
  specialize (Hsol _ _ Hi). lia.
Qed.

Lemma registered_balances_floor_witness :
  let r := roomAfter "1234" secondRound in
  Z.min 0 (startingBalance r) ≤ balance (playerAt 0 r)
  ∧ (0 ≤ startingBalance r → 0 ≤ balance (playerAt 0 r)).
Proof.
  intros r.
  apply (registered_balances_floor secondRound "1234" r 0); by vm_compute.
Defined.


(** ** Chips are conserved *)







(** ** Where the turn is left *)

Lemma moveToNextActivePlayer_turnOnActive (r : room) :
  players r ≠ [] → turnOnActive (moveToNextActivePlayer r).
Proof.
  intros Hne Hact. rewrite moveToNextActivePlayer_players in *.
  destruct (moveToNextActivePlayer_scan r Hne)
    as (n & Hn & _ & _ & Hstop & Hfull).
  apply Hstop. destruct (decide (n = length (players r))) as [E|]; [|lia].
  apply Exists_exists in Hact as (p & Hp & Hpk).
  specialize (Hfull E). rewrite Forall_forall in Hfull.
  specialize (Hfull p Hp). congruence.
Qed.

Lemma ensureActiveTurn_turnOnActive (r : room) (n : nat) :
  length (players r) = n → (currentTurn r < n)%nat →
  turnOnActive (ensureActiveTurn r).
Proof. intros <- Hlt. by apply ensureActiveTurn_active. Qed.

Lemma turnOnActive_unpacked (f : player → player) (ps : list player) (r : room) :
  (∀ p, packed (f p) = false) → players r = f <$> ps → turnOnActive r.
Proof.
  intros Hf Hps _. rewrite Hps. unfold packedAt.
  rewrite list_lookup_fmap. destruct (ps !! _); simpl; [apply Hf | done].
Qed.

(** X9: After a room is created or joined, after a bid, a pack, a reset of
    the pool, a declared winner or a change of turn, the room that the
    call has changed has its turn on a player that has not packed,
    whenever it has such a player. *)
Theorem turn_left_on_active (cs : list call) (sid : string) (e : env)
    (q : request) (w' : world) (out : list emission) (rc : string)
    (r' : room) :
  settlesTurn q = true →
  handle (worldAfter cs) sid e q = Done w' out →
  rooms w' !! rc = Some r' →
  rooms (worldAfter cs) !! rc ≠ Some r' →
  turnOnActive r'.
Proof.
  pose proof (reachable_sound cs) as HS. revert HS.
  generalize (worldAfter cs). intros w HS Hq.
  destruct q; try done; simpl.
  all: handler_cases; try congruence.
  all: try known_sound HS.
  all: try match goal with Ho : roomOk _ |- _ => destruct Ho as [Hturn _] end.
  all: repeat match goal with
       | Hf : findPlayer _ _ = Some _ |- _ =>
           pose proof (findPlayer_lt _ _ _ _ Hf);
           apply findPlayer_lookup in Hf as [? ?]
       end.
  all: match goal with
       | H : rooms (with_rooms (<[?c := _]> _) _) !! ?k = Some _ |- _ =>
           simpl in H; destruct (decide (c = k)) as [<-|Hne];
           [rewrite lookup_insert_eq in H | rewrite lookup_insert_ne in H by done];
           simplify_eq; try done
       | H : rooms (with_session _ _ (with_rooms (<[?c := _]> _) _)) !! ?k
             = Some _ |- _ =>
           simpl in H; destruct (decide (c = k)) as [<-|Hne];
           [rewrite lookup_insert_eq in H | rewrite lookup_insert_ne in H by done];
           simplify_eq; try done
       end.
  all: try (eapply ensureActiveTurn_turnOnActive; [by allFields|]; turn_below).
  all: try (apply moveToNextActivePlayer_turnOnActive; allFields;
            intros E; apply (f_equal length) in E;
            rewrite length_alter in E; simpl in E; lia).
  all: try (eapply turnOnActive_unpacked; [|allFields; reflexivity]; done).
  intros _. allFields. unfold packedAt.
  match goal with Hl : players r !! _ = Some _ |- _ => by rewrite Hl end.
Qed.

(** A packs while B has packed already: C is alone, the round is
    settled and the turn is on a player that has not packed. *)
Lemma turn_left_on_active_witness :
  let o := handle (worldAfter lastStanding) "sA" (at_ 7) PackCards in
  turnOnActive (default noRoom (rooms (worldOf o) !! "1234")).
Proof.
  intros o.
  apply (turn_left_on_active lastStanding "sA" (at_ 7) PackCards
           (worldOf o) (eventsOf o) "1234"); by vm_compute.
Defined.


(** ** No exception *)

(** X10: No handler throws on a state that the handlers themselves
    have built, whatever the request (a request carries an object
    whose text fields are strings or absent, as [request] has them):
    the unchecked [room.players[room.currentTurn].id] of [placeBid]
    always finds a player. *)
Theorem no_uncaught_exception (cs : list call) (sid : string) (e : env)
    (q : request) :
  handle (worldAfter cs) sid e q ≠ Uncaught.
Proof.
  destruct (handle_returns (worldAfter cs) sid e q
              (λ c, from_option pool 0 (rooms (worldAfter cs) !! c)))
    as (w' & out & ->); [|done].
  intros c r Hc. rewrite Hc. split; [|done].
  by destruct (reachable_sound cs c r Hc).
Qed.

(** ** Reconnecting and the timer of the lost connection *)

Lemma findPlayer_alter_found (x : option string) (f : player → player)
    (i : nat) (p : player) (ps : list player) :
  (∀ q, id (f q) = id q) →
  findPlayer x ps = Some (i, p) →
  findPlayer x (alter f i ps) = Some (i, f p).
Proof.
  intros Hf (Hi & Hp & Hleast)%list_find_Some. apply list_find_Some.
  split_and!.
  - by rewrite list_lookup_alter_eq, Hi.
  - by rewrite Hf.
  - intros j q Hj Hlt. rewrite list_lookup_alter_ne in Hj by lia.
    by eapply Hleast.
Qed.

Lemma truthy_Some (o : option string) (s : string) :
  Js.truthy o = Some s → o = Some s ∧ s ≠ "".
Proof.
  destruct o as [t|]; simpl; [|done].
  case_bool_decide; [done|]. by intros [= ->].
Qed.

(** X11: A participant that rejoins from a new connection keeps its place:
    only its [socketId] changes (and the log gets an entry). The timer
    armed for any other connection of that participant then does
    nothing when it fires. *)
Theorem rejoin_cancels_timeout (w : world) (sid : string) (e : env)
    (rcode pid pname : option string) (rc x n : string) (r : room)
    (i : nat) (p : player) :
  Js.truthy rcode = Some rc → Js.truthy pid = Some x →
  Js.truthy pname = Some n →
  rooms w !! rc = Some r →
  findPlayer (Some x) (players r) = Some (i, p) →
  let w' := worldOf (rejoinRoom w sid e rcode pid pname) in
  (∃ r',
     rooms w' !! rc = Some r'
     ∧ players r' = alter (with_socketId sid) i (players r)
     ∧ sameButLog r' (with_players (players r') r))
  ∧ bound (session w' sid) = Some (rc, x)
  ∧ ∀ old e', old ≠ sid → disconnectTimeout w' old e' rc x = Done w' [].
Proof.
  intros Hc Hx Hn Hr Hf w'. subst w'. unfold rejoinRoom.
  rewrite Hc, Hx, Hn, Hr, Hf. cbn [worldOf].
  destruct (truthy_Some _ _ Hc) as [_ Hrc].
  destruct (truthy_Some _ _ Hx) as [_ Hxne].
  split_and!.
  - eexists. split; [by simpl; rewrite lookup_insert_eq|]. done.
  - unfold bound, session. simpl. rewrite lookup_insert_eq. simpl.
    by rewrite !bool_decide_false.
  - intros old e' Hold. unfold disconnectTimeout. simpl.
    rewrite lookup_insert_eq. allFields.
    rewrite (findPlayer_alter_found _ _ _ p) by done.
    simpl. by rewrite bool_decide_false.
Qed.

(** B comes back on the connection sB2; the timer of sB finds B bound
    to sB2. *)
Lemma rejoin_cancels_timeout_witness :
  let w' :=
    worldOf (rejoinRoom (worldAfter three) "sB2" (at_ 4) (Some "1234")
               (Some "player_2_k3j9x0q2a") (Some "B")) in
  bound (session w' "sB2") = Some ("1234", "player_2_k3j9x0q2a")
  ∧ disconnectTimeout w' "sB" (at_ 5) "1234" "player_2_k3j9x0q2a"
    = Done w' [].
Proof.
  intros w'.
  destruct (rejoin_cancels_timeout (worldAfter three) "sB2" (at_ 4)
              (Some "1234") (Some "player_2_k3j9x0q2a") (Some "B")
              "1234" "player_2_k3j9x0q2a" "B"
              (roomAfter "1234" three) 1
              (playerAt 1 (roomAfter "1234" three)))
    as (_ & Hb & Ht); [by vm_compute .. |].
  split; [exact Hb|]. by apply Ht.
Defined.


(** ** The timer that does fire *)






(** ** Leaving *)

(** X13: When the creator leaves and others remain, the first of the others
    becomes the creator and gives the room its [creator] name; nobody
    else changes, the pool stays in the room, and the room stays in the
    registry. *)
Theorem creator_leaves_first_takes_over (w : world) (sid : string) (e : env)
    (rc pid : string) (r : room) (i : nat) (p first : player)
    (rest : list player) :
  bound (session w sid) = Some (rc, pid) →
  rooms w !! rc = Some r →
  findPlayer (Some pid) (players r) = Some (i, p) →
  isCreator p = true →
  delete i (players r) = first :: rest →
  ∃ r',
    rooms (worldOf (leaveRoom w sid e)) !! rc = Some r'
    ∧ players r' = with_isCreator true first :: rest
    ∧ creator r' = name first
    ∧ pool r' = pool r ∧ round r' = round r ∧ totalBids r' = totalBids r
    ∧ currentTurn r'
      = (if bool_decide (length (players r) - 1 ≤ currentTurn r)%nat
         then 0%nat else currentTurn r).
Proof.
  intros Hb Hr Hf Hc Hdel.
  unfold leaveRoom, depart. rewrite Hb, Hr, Hf, Hc. allFields.
  rewrite Hdel. allFields. simpl alter. cbn [worldOf with_session rooms].
  assert (length (with_isCreator true first :: rest)
          = (length (players r) - 1)%nat) as Hlen.
  { rewrite <- (length_delete (players r) i), Hdel; [done|].
    apply findPlayer_lookup in Hf as [Hl _]. eauto. }
  rewrite Hlen. simpl rooms. rewrite lookup_insert_eq.
  eexists. split; [reflexivity|].
  by case_bool_decide.
Qed.

(** A, who created the room, leaves B and C behind. *)
Lemma creator_leaves_first_takes_over_witness :
  ∃ r',
    rooms (worldOf (leaveRoom (worldAfter three) "sA" (at_ 4))) !! "1234"
    = Some r'
    ∧ creator r' = "B"
    ∧ (λ p, (name p, isCreator p)) <$> players r'
      = [("B", true); ("C", false)].
Proof.
  destruct (creator_leaves_first_takes_over (worldAfter three) "sA" (at_ 4)
              "1234" "player_1_k3j9x0q2a" (roomAfter "1234" three) 0
              (playerAt 0 (roomAfter "1234" three))
              (playerAt 1 (roomAfter "1234" three))
              [playerAt 2 (roomAfter "1234" three)])
    as (r' & Hr' & Hps & Hcr & _); [by vm_compute .. |].
  exists r'. split; [exact Hr'|]. rewrite Hcr, Hps.
  split; vm_compute; reflexivity.
Defined.


(** ** Creating a room, then leaving or joining it *)

Lemma createRoom_bound (w : world) (sid : string) (e : env)
    (cn : option string) (n : string) (v : Js.value) :
  Js.truthy cn = Some n → Js.blank n = false →
  0 ≤ random_code e < 9000 →
  ∃ r p,
    worldOf (createRoom w sid e cn v)
    = with_session sid
        (Socket (Some (generatePlayerId e)) (Some (generateRoomCode e)))
        (with_rooms (<[generateRoomCode e := r]> (rooms w)) w)
    ∧ bound (session (worldOf (createRoom w sid e cn v)) sid)
      = Some (generateRoomCode e, generatePlayerId e)
    ∧ players r = [p] ∧ id p = generatePlayerId e ∧ name p = n
    ∧ balance p = startingBalance r ∧ packed p = false
    ∧ currentTurn r = 0%nat ∧ pool r = 0 ∧ isCreator p = true.
Proof.
  intros Hn Hb He. unfold createRoom. rewrite Hn, Hb. cbn [worldOf].
  eexists _, _. split; [reflexivity|]. split; [|done].
  unfold bound, session. simpl. rewrite lookup_insert_eq. simpl.
  destruct (generateRoomCode_format e He) as [Hlen _].
  rewrite bool_decide_false; [done|].
  intros E. by rewrite E in Hlen.
Qed.

(** X14: A connection that creates a room and leaves it again leaves
    no room under the code: the room is deleted, the socket is unbound,
    joining with the code is answered with "Room not found", and the
    registry is what it was before when the code was free then. *)
Theorem create_then_leave (w : world) (sid : string) (e e' : env)
    (cn : option string) (n : string) (v : Js.value) :
  Js.truthy cn = Some n → Js.blank n = false →
  0 ≤ random_code e < 9000 →
  let rc := generateRoomCode e in
  let w1 := worldOf (createRoom w sid e cn v) in
  let w2 := worldOf (leaveRoom w1 sid e') in
  rooms w2 = delete rc (rooms w)
  ∧ (rooms w !! rc = None → rooms w2 = rooms w)
  ∧ session w2 sid = Socket None None
  ∧ ∀ sid' e'' pname m,
      Js.truthy pname = Some m → Js.blank m = false →
      joinRoom w2 sid' e'' pname (Some rc)
      = fail w2 sid' "Room not found. Please check the room code.".
Proof.
  intros Hn Hb He rc w1 w2. subst w2 w1.
  destruct (createRoom_bound w sid e cn n v Hn Hb He)
    as (r & p & Hw1 & Hbound & Hps & Hid & _).
  fold rc in Hw1, Hbound.
  set (w1 := worldOf (createRoom w sid e cn v)) in *.
  assert (rooms w1 !! rc = Some r) as Hr1
    by (rewrite Hw1; simpl; by rewrite lookup_insert_eq).
  assert (rooms (worldOf (leaveRoom w1 sid e')) = delete rc (rooms w)
          ∧ session (worldOf (leaveRoom w1 sid e')) sid = Socket None None)
    as [Hrooms Hsess].
  { unfold leaveRoom. rewrite Hbound, Hr1.
    unfold findPlayer. rewrite Hps. simpl.
    rewrite decide_True by (by rewrite Hid).
    unfold depart. allFields. rewrite Hps. simpl.
    split; [|unfold session; simpl; by rewrite lookup_insert_eq].
    rewrite Hw1. simpl. apply delete_insert_eq. }
  split_and!; try done.
  - intros Hfree. rewrite Hrooms. by apply delete_id.
  - intros sid' e'' pname m Hm Hbm. unfold joinRoom. rewrite Hm, Hbm.
    destruct (generateRoomCode_format e He) as [Hlen _]. fold rc in Hlen.
    assert (Js.truthy (Some rc) = Some rc) as ->.
    { simpl. rewrite bool_decide_false; [done|].
      intros E. by rewrite E in Hlen. }
    rewrite bool_decide_false by (intros ?; congruence).
    by rewrite Hrooms, lookup_delete_eq.
Qed.

Lemma create_then_leave_witness :
  let w1 := worldOf (createRoom start "sA" (at_ 1) (Some "A") (Js.Num 1000)) in
  let w2 := worldOf (leaveRoom w1 "sA" (at_ 2)) in
  rooms w2 = rooms start
  ∧ joinRoom w2 "sB" (at_ 3) (Some "B") (Some "1234")
    = fail w2 "sB" "Room not found. Please check the room code.".
Proof.
  intros w1 w2.
  destruct (create_then_leave start "sA" (at_ 1) (at_ 2) (Some "A") "A"
              (Js.Num 1000))
    as (_ & Hsame & _ & Hjoin); [by vm_compute .. |].
  split.
  - apply Hsame. by vm_compute.
  - apply (Hjoin "sB" (at_ 3) (Some "B") "B"); by vm_compute.
Defined.



(** X15: A room that was just created can be joined with the code that was
    handed out, under any name that differs from the owner's when
    letter case is ignored: the room then holds the owner and the
    newcomer in this order, the newcomer starts with the room's
    starting balance (the owner's own), the turn stays on the owner,
    and the joining connection is bound to the room. *)
Theorem create_then_join (w : world) (sid sid' : string) (e e' : env)
    (cn pn : option string) (n m : string) (v : Js.value) :
  Js.truthy cn = Some n → Js.blank n = false → 0 ≤ random_code e < 9000 →
  Js.truthy pn = Some m → Js.blank m = false →
  Js.toLowerCase m ≠ Js.toLowerCase n →
  let rc := generateRoomCode e in
  let w1 := worldOf (createRoom w sid e cn v) in
  let w2 := worldOf (joinRoom w1 sid' e' pn (Some rc)) in
  ∃ r p q,
    rooms w2 !! rc = Some r ∧ players r = [p; q]
    ∧ name p = n ∧ isCreator p = true
    ∧ name q = m ∧ isCreator q = false ∧ id q = generatePlayerId e'
    ∧ balance q = startingBalance r ∧ balance p = startingBalance r
    ∧ currentTurn r = 0%nat ∧ pool r = 0
    ∧ bound (session w2 sid') = Some (rc, generatePlayerId e').
Proof.
  intros Hn Hb He Hm Hbm Hdiff rc w1 w2. subst w2 w1.
  destruct (createRoom_bound w sid e cn n v Hn Hb He)
    as (r & p & Hw1 & _ & Hps & Hid & Hname & Hbal & Hpk & Hturn & Hpool & Hc).
  fold rc in Hw1.
  set (w1 := worldOf (createRoom w sid e cn v)) in *.
  assert (rooms w1 !! rc = Some r) as Hr1
    by (rewrite Hw1; simpl; by rewrite lookup_insert_eq).
  destruct (generateRoomCode_format e He) as [Hlen _]. fold rc in Hlen.
  assert (Js.truthy (Some rc) = Some rc) as Hrc.
  { simpl. rewrite bool_decide_false; [done|].
    intros E. by rewrite E in Hlen. }
  unfold joinRoom. rewrite Hm, Hbm, Hrc.
  rewrite bool_decide_false by (intros ?; congruence).
  rewrite Hr1, Hps. cbn [existsb orb].
  rewrite bool_decide_false by (rewrite Hname; congruence).
  cbn [worldOf].
  rewrite ensureActiveTurn_unpacked
    by (allFields; unfold packedAt; rewrite Hturn; simpl; by rewrite Hpk).
  eexists _, p, _. split; [simpl; by rewrite lookup_insert_eq|].
  allFields. split; [reflexivity|]. simpl.
  split_and!; try done.
  unfold bound, session. simpl. rewrite lookup_insert_eq. simpl.
  rewrite bool_decide_false; [done|].
  intros E. by rewrite E in Hlen.
Qed.

Lemma create_then_join_witness :
  let w1 := worldOf (createRoom start "sA" (at_ 1) (Some "A") (Js.Num 700)) in
  let w2 := worldOf (joinRoom w1 "sB" (at_ 2) (Some "B") (Some "1234")) in
  ∃ r p q,
    rooms w2 !! "1234" = Some r ∧ players r = [p; q]
    ∧ balance q = 700 ∧ balance p = 700 ∧ currentTurn r = 0%nat.
Proof.
  intros w1 w2.
  destruct (create_then_join start "sA" "sB" (at_ 1) (at_ 2)
              (Some "A") (Some "B") "A" "B" (Js.Num 700))
    as (r & p & q & Hr & Hps & _ & _ & _ & _ & _ & Hq & Hp & Ht & _);
    [by vm_compute .. |].
  exists r, p, q. split; [exact Hr|]. split; [exact Hps|].
  assert (startingBalance r = 700) as Hsb.
  { change (rooms w2 !! "1234" = Some r) in Hr.
    vm_compute in Hr. by injection Hr as <-. }
  rewrite Hq, Hp, Hsb. done.
Defined.


(** The participant at index [i] is the only one with its id when the
    ids of the list are distinct: no participant of the list without
    index [i] has it. *)
Lemma findPlayer_delete (x : string) (ps : list player) (i : nat)
    (p : player) :
  NoDup (id <$> ps) → findPlayer (Some x) ps = Some (i, p) →
  findPlayer (Some x) (delete i ps) = None.
Proof.
  intros Hnd Hf. unfold findPlayer in *.
  apply list_find_Some in Hf as (Hi & Hx & _).
  apply list_find_None, Forall_lookup. intros j q Hj [=Hq].
  rewrite list_lookup_delete in Hj.
  assert ((id <$> ps) !! i = Some x) as H1
    by (rewrite list_lookup_fmap, Hi; simpl; congruence).
  destruct (decide (j < i)%nat) as [Hlt|Hge].
  - assert ((id <$> ps) !! j = Some x) as H2
      by (rewrite list_lookup_fmap, Hj; simpl; congruence).
    pose proof (NoDup_lookup _ _ _ _ Hnd H1 H2). lia.
  - assert ((id <$> ps) !! S j = Some x) as H2
      by (rewrite list_lookup_fmap, Hj; simpl; congruence).
    pose proof (NoDup_lookup _ _ _ _ Hnd H1 H2). lia.
Qed.

(** X16: A participant the owner removed can no longer act, although the
    connection of the removed participant stays bound to the room (the
    handler clears nothing on it): when the ids of the room are
    distinct, a bid or a pack from that connection is answered with
    "Player not found", and the connection is no participant of the
    room any more. *)
Theorem removed_player_cannot_act (w : world) (sid sid' : string)
    (e e' : env) (rc h x : string) (r : room) (k i : nat)
    (host p : player) (a : option Z) :
  bound (session w sid) = Some (rc, h) →
  rooms w !! rc = Some r →
  findPlayer (Some h) (players r) = Some (k, host) → isCreator host = true →
  findPlayer (Some x) (players r) = Some (i, p) → isCreator p = false →
  NoDup (id <$> players r) →
  bound (session w sid') = Some (rc, x) →
  let w' := worldOf (removePlayer w sid e (Some x)) in
  bound (session w' sid') = Some (rc, x)
  ∧ requester w' sid' = None
  ∧ placeBid w' sid' e' a = fail w' sid' "Player not found"
  ∧ packCards w' sid' e' = fail w' sid' "Player not found".
Proof.
  intros Hb Hr Hh Hc Hx Hnc Hnd Hb' w'. subst w'.
  unfold removePlayer. rewrite Hb, Hr, Hh, Hc, Hx, Hnc. cbn [negb worldOf].
  match goal with
  | |- context [with_rooms (<[rc := ?r1]> _) w] => set (r' := r1)
  end.
  assert (players r' = delete i (players r)) as Hps.
  { subst r'. repeat case_bool_decide; by allFields. }
  assert (findPlayer (Some x) (players r') = None) as Hgone
    by (rewrite Hps; by eapply findPlayer_delete).
  set (w' := with_rooms _ w).
  assert (bound (session w' sid') = Some (rc, x)) as Hb'' by done.
  assert (rooms w' !! rc = Some r') as Hr'
    by (subst w'; simpl; by rewrite lookup_insert_eq).
  clearbody w' r'. split_and!.
  - done.
  - unfold requester. rewrite Hb''. simpl. rewrite Hr'. simpl.
    by rewrite Hgone.
  - unfold placeBid. by rewrite Hb'', Hr', Hgone.
  - unfold packCards. by rewrite Hb'', Hr', Hgone.
Qed.

(** The owner A removes B; the connection of B then bids. *)
Lemma removed_player_cannot_act_witness :
  let w' :=
    worldOf (removePlayer (worldAfter three) "sA" (at_ 4)
               (Some "player_2_k3j9x0q2a")) in
  bound (session w' "sB") = Some ("1234", "player_2_k3j9x0q2a")
  ∧ placeBid w' "sB" (at_ 5) (Some 10) = fail w' "sB" "Player not found".
Proof.
  intros w'.
  destruct (removed_player_cannot_act (worldAfter three) "sA" "sB"
              (at_ 4) (at_ 5) "1234" "player_1_k3j9x0q2a"
              "player_2_k3j9x0q2a" (roomAfter "1234" three) 0 1
              (playerAt 0 (roomAfter "1234" three))
              (playerAt 1 (roomAfter "1234" three)) (Some 10))
    as (Hb & _ & Hbid & _);
    [try by vm_compute .. |].
  - apply (bool_decide_unpack _). by vm_compute.
  - split; [exact Hb | exact Hbid].
Defined.


(** ** Restarting the game *)

Lemma balances_reset (sb : Z) (ps : list player) :
  foldr Z.add 0
    (balance <$> ((λ p, with_packed false (with_balance sb p)) <$> ps))
  = sb * Z.of_nat (length ps).
Proof.
  induction ps as [|p ps IH]; [simpl; lia|].
  rewrite !fmap_cons. cbn [foldr length]. rewrite IH. simpl balance. lia.
Qed.

(** X17: An accepted [resetPool] starts the game again: every player is
    active and holds the starting balance, so that the chips of the
    room are the starting balance times the number of players, whatever
    was won, lost or in the pool before; the players, their order and
    their roles are the same, and the turn is on the first of them. *)
Theorem resetPool_restarts (w : world) (sid : string) (e : env)
    (rc pid : string) (r : room) (i : nat) (p : player) :
  bound (session w sid) = Some (rc, pid) →
  rooms w !! rc = Some r →
  findPlayer (Some pid) (players r) = Some (i, p) →
  isCreator p = true →
  ∃ r',
    rooms (worldOf (resetPool w sid e)) !! rc = Some r'
    ∧ Forall (λ q, balance q = startingBalance r ∧ packed q = false)
        (players r')
    ∧ chips r' = startingBalance r * Z.of_nat (length (players r))
    ∧ (λ q, (id q, socketId q, name q, isCreator q)) <$> players r'
      = (λ q, (id q, socketId q, name q, isCreator q)) <$> players r
    ∧ currentTurn r' = 0%nat ∧ round r' = 1 ∧ totalBids r' = 0
    ∧ turnOnActive r'.
Proof.
  intros Hb Hr Hf Hc. unfold resetPool. rewrite Hb, Hr, Hf, Hc.
  cbn [negb worldOf]. eexists. split; [simpl; by rewrite lookup_insert_eq|].
  unfold chips, turnOnActive. allFields. split_and!; try done.
  - apply Forall_fmap, Forall_true. done.
  - rewrite balances_reset. lia.
  - rewrite <- list_fmap_compose. by apply list_fmap_ext.
  - intros _. unfold packedAt. rewrite list_lookup_fmap.
    by destruct (players r !! 0%nat).
Qed.

(** A is down to 900, C to 950 and 150 are in the pool; the owner
    resets. *)
Lemma resetPool_restarts_witness :
  ∃ r',
    rooms (worldOf (resetPool (worldAfter lastStanding) "sA" (at_ 7)))
      !! "1234" = Some r'
    ∧ chips r' = 3000
    ∧ balance <$> players r' = [1000; 1000; 1000]
    ∧ packed <$> players r' = [false; false; false].
Proof.
  destruct (resetPool_restarts (worldAfter lastStanding) "sA" (at_ 7)
              "1234" "player_1_k3j9x0q2a" (roomAfter "1234" lastStanding) 0
              (playerAt 0 (roomAfter "1234" lastStanding)))
    as (r' & Hr' & _ & Hchips & _); [by vm_compute .. |].
  exists r'. split; [exact Hr'|]. split; [rewrite Hchips; by vm_compute|].
  assert (r' = default noRoom
                 (rooms (worldOf (resetPool (worldAfter lastStanding) "sA"
                                    (at_ 7))) !! "1234")) as ->
    by (by rewrite Hr').
  split; vm_compute; reflexivity.
Defined.

(** ** Giving the turn *)

(** X18: After the owner has given the turn to a participant, the turn is
    on that participant, who has not packed: a connection bound to the
    participant passes the turn test of [placeBid] and of [packCards].
    Nothing but the turn (and the log) changes. *)
Theorem changeTurn_gives_turn (w : world) (sid sid' : string) (e : env)
    (rc pid x : string) (r : room) (i j : nat) (host target : player) :
  bound (session w sid) = Some (rc, pid) →
  rooms w !! rc = Some r →
  findPlayer (Some pid) (players r) = Some (i, host) →
  isCreator host = true →
  findPlayer (Some x) (players r) = Some (j, target) →
  packed target = false →
  bound (session w sid') = Some (rc, x) →
  let w' := worldOf (changeTurn w sid e (Some x)) in
  ∃ r',
    requester w' sid' = Some (rc, r', j, target)
    ∧ currentTurn r' = j
    ∧ players r' !! currentTurn r' = Some target
    ∧ sameButLog r' (with_currentTurn j r)
    ∧ turnOnActive r'.
Proof.
  intros Hb Hr Hh Hc Ht Hpk Hb' w'. subst w'.
  unfold changeTurn. rewrite Hb, Hr, Hh, Hc, Ht, Hpk. cbn [negb worldOf].
  pose proof Ht as [Hl _]%findPlayer_lookup.
  eexists. split_and!.
  - unfold requester. change (session (with_rooms ?m w) sid') with (session w sid').
    rewrite Hb'. simpl. rewrite lookup_insert_eq. simpl.
    allFields. by rewrite Ht.
  - by allFields.
  - by allFields.
  - done.
  - intros _. unfold packedAt. allFields. by rewrite Hl.
Qed.

(** The owner A gives the turn to C. *)
Lemma changeTurn_gives_turn_witness :
  let w' :=
    worldOf (changeTurn (worldAfter three) "sA" (at_ 4)
               (Some "player_3_k3j9x0q2a")) in
  ∃ r',
    requester w' "sC"
    = Some ("1234", r', 2%nat, playerAt 2 (roomAfter "1234" three))
    ∧ currentTurn r' = 2%nat.
Proof.
  intros w'.
  destruct (changeTurn_gives_turn (worldAfter three) "sA" "sC" (at_ 4)
              "1234" "player_1_k3j9x0q2a" "player_3_k3j9x0q2a"
              (roomAfter "1234" three) 0 2
              (playerAt 0 (roomAfter "1234" three))
              (playerAt 2 (roomAfter "1234" three)))
    as (r' & Hq & Ht & _); [by vm_compute .. |].
  exists r'. split; [exact Hq | exact Ht].
Defined.
